(** * RedditClient: OAuth2 token cache with de-duplicated refresh

    A shallow embedding of [src/RedditClient.ts].  The class keeps a cached
    token and the promise of a refresh in flight; [getToken] hands out the
    cached token, attaches to the refresh in flight, or starts one.

    JavaScript runs one job at a time, and an [async] function gives up
    control only at an [await].  The embedding therefore splits every
    [async] method at its [await]s: each piece is a pure function on the
    object's fields, and a world machine runs the pieces one job at a time.
    Promises live in a store indexed by identifier, frames suspended at an
    [await] resume in the order in which they suspended, and the clock only
    moves forward.  Jobs may follow each other in any order, which covers
    every order the event loop can produce.  [getApiClient] and [request]
    read nothing but the configuration between the moment [getToken]
    settles and line 152, so the machine runs that stretch within the job
    in which [getToken] settles.  The event loop resumes them one and two
    jobs later: among callers of different methods the order in which
    calls finish is therefore the machine's own, and no statement below
    relies on it.

    Timestamps are milliseconds and are modelled in [Z].  [Date.now()] and
    an [expires_in] given in seconds are integers far below 2^53, where
    JavaScript numbers are exact; the statement about the arithmetic of
    line 110 carries that bound as a hypothesis.  A response is taken to
    have the fields that [requestToken] reads. *)

From stdpp Require Import prelude strings gmap.
From Stdlib Require Import ZArith Lia.

(** ** Data model *)

(** [interface RedditAuthConfig] (lines 3-10).  An optional field is an
    [option]: [None] is [undefined]. *)
Module Config.
Record t := mk {
  clientId : string;
  clientSecret : string;
  username : option string;
  password : option string;
  userAgent : string;
  refreshToken : option string;
}.
End Config.
Abbreviation RedditAuthConfig := Config.t.

(** [interface RedditToken] (lines 12-19). *)
Module Token.
Record t := mk {
  accessToken : string;
  tokenType : string;
  expiresIn : Z;
  refreshToken : option string;
  scope : string;
  expiresAt : Z;
}.
End Token.
Abbreviation RedditToken := Token.t.

(** [response.data] of the authorization endpoint, as [requestToken] reads
    it (lines 110-117). *)
Record TokenData := {
  access_token : string;
  token_type : string;
  expires_in : Z;
  refresh_token : option string;
  scope : string;
}.

(** Values that the code throws, or that a promise rejects with. *)
Inductive Error :=
| JsError (message : string)      (* [new Error(message)], line 97 *)
| AxiosError (cause : string).    (* whatever an axios call rejects with *)

(** The error of line 97; the specification calls it ConfigurationError. *)
Definition ConfigurationError : Error :=
  JsError "Either refreshToken or username/password must be provided".

(** How a promise settles: fulfilled with a value or rejected with an error. *)
Inductive Result (A : Type) :=
| Ok (a : A)
| Err (e : Error).
Arguments Ok {A} a.
Arguments Err {A} e.

Definition Result_map {A B} (f : A → B) (r : Result A) : Result B :=
  match r with
  | Ok a => Ok (f a)
  | Err e => Err e
  end.

(** A JavaScript object with string values, as an association list in
    insertion order ([data] of line 81, [options] of line 149). *)
Definition Obj := list (string * string).

Fixpoint Obj_set (k v : string) (o : Obj) : Obj :=
  match o with
  | [] => [(k, v)]
  | (k', v') :: o' =>
      if String.eqb k k' then (k, v) :: o' else (k', v') :: Obj_set k v o'
  end.

Fixpoint Obj_get (k : string) (o : Obj) : option string :=
  match o with
  | [] => None
  | (k', v) :: o' => if String.eqb k k' then Some v else Obj_get k o'
  end.

(** Object spread [{...base, ...more}]: the properties of [more] are set on
    [base] in order. *)
Definition Obj_spread (base more : Obj) : Obj :=
  fold_left (fun o kv => Obj_set kv.1 kv.2 o) more base.

(** The call [this.axios.post('/api/v1/access_token', params.toString(),
    { headers })] of line 107, recorded before the platform encodes it:
    [form] is [data], which [URLSearchParams] serialises, and [basic] is the
    string [clientId:clientSecret], which [Buffer] encodes in base64 behind
    [Basic ] (lines 79, 101). *)
Record AuthPost := {
  post_url : string;
  post_form : Obj;
  post_basic : string;
}.

(** The instance that [axios.create] returns at lines 133-139. *)
Record ApiClient := {
  baseURL : string;
  headers : Obj;
}.

(** The response of [apiClient.request] (line 152). *)
Record AxiosResponse := {
  status : Z;
  data : string;
}.

(** ** JavaScript truthiness of [string | undefined] *)

(** [undefined] and the empty string are falsy; every other string is
    truthy. *)
Definition truthy (v : option string) : bool :=
  match v with
  | Some (String _ _) => true
  | _ => false
  end.

(** [a || b] *)
Definition js_or (a b : option string) : option string :=
  if truthy a then a else b.

(** [this.token?.refreshToken] *)
Definition token_refreshToken (tok : option RedditToken) : option string :=
  match tok with
  | Some t => Token.refreshToken t
  | None => None
  end.

(** [this.token?.refreshToken || this.config.refreshToken] (lines 83 and
    87): the refresh token the client knows, the cached token's first. *)
Definition known_refreshToken (cfg : RedditAuthConfig)
    (tok : option RedditToken) : option string :=
  js_or (token_refreshToken tok) (Config.refreshToken cfg).

(** ** [requestToken], lines 78-124 *)

(** Lines 81-98: the grant.  [data] on success, the thrown error
    otherwise. *)
Definition grant_data (cfg : RedditAuthConfig) (tok : option RedditToken)
  : Result Obj :=
  if truthy (known_refreshToken cfg tok) then
    Ok [("grant_type", "refresh_token");
        ("refresh_token",
         default "" (js_or (known_refreshToken cfg tok) (Some "")))]
  else if truthy (Config.username cfg) && truthy (Config.password cfg) then
    Ok [("grant_type", "password");
        ("username", default "" (Config.username cfg));
        ("password", default "" (Config.password cfg))]
  else Err ConfigurationError.

(** Lines 79-107: everything [requestToken] does before its [await].  Either
    it throws, or it has called [axios.post] with the returned arguments. *)
Definition requestToken_begin (cfg : RedditAuthConfig)
    (tok : option RedditToken) : Result AuthPost :=
  Result_map
    (fun d => {| post_url := "/api/v1/access_token";
                 post_form := d;
                 post_basic := Config.clientId cfg +:+ ":" +:+
                               Config.clientSecret cfg |})
    (grant_data cfg tok).

(** Lines 109-119: the token built from the response, at time [now]. *)
Definition make_token (cfg : RedditAuthConfig) (tok : option RedditToken)
    (now : Z) (d : TokenData) : RedditToken :=
  let expiresAt := (now + expires_in d * 1000)%Z in
  Token.mk (access_token d) (token_type d) (expires_in d)
    (js_or (js_or (refresh_token d) (token_refreshToken tok))
       (Config.refreshToken cfg))
    (scope d) expiresAt.

(** Lines 107-123: everything [requestToken] does after its [await], given
    how [axios.post] settled.  The [catch] logs and throws the same error. *)
Definition requestToken_end (cfg : RedditAuthConfig)
    (tok : option RedditToken) (now : Z) (r : Result TokenData)
  : Result RedditToken :=
  Result_map (make_token cfg tok now) r.

(** ** [getToken], lines 49-73 *)

(** The fields of a [RedditClient] object that the methods read or write
    ([this.axios] is only called). *)
Record Client := {
  config : RedditAuthConfig;
  token : option RedditToken;
  tokenPromise : option nat;
}.

(** Line 57: the cached token when
    [this.token && this.token.expiresAt > Date.now() + 60000] holds. *)
Definition fresh_token (tok : option RedditToken) (now : Z)
  : option RedditToken :=
  match tok with
  | Some t => if (now + 60000 <? Token.expiresAt t)%Z then Some t else None
  | None => None
  end.

(** Where a frame of [getToken] stands after its first run. *)
Inductive Role :=
| Attached      (* suspended at line 52, on a refresh somebody else started *)
| Initiator.    (* suspended at line 65, on the refresh it started *)

(** Lines 52-53 and 65-72: what a suspended frame of [getToken] does when
    the promise it awaits settles with [r]. *)
Definition getToken_resume (role : Role) (r : Result RedditToken)
    (cl : Client) : Client * Result string :=
  match role with
  | Attached => (cl, Result_map Token.accessToken r)
  | Initiator =>
      match r with
      | Ok t =>
          ({| config := config cl; token := Some t; tokenPromise := None |},
           Ok (Token.accessToken t))
      | Err e =>
          ({| config := config cl; token := token cl; tokenPromise := None |},
           Err e)
      end
  end.

(** ** [getApiClient] and [request], lines 129-162 *)

(** Lines 133-139: the instance [axios.create] is asked for. *)
Definition bearer_client (cfg : RedditAuthConfig) (tok : string) : ApiClient :=
  {| baseURL := "https://oauth.reddit.com";
     headers := [("Authorization", "Bearer " +:+ tok);
                 ("User-Agent", Config.userAgent cfg)] |}.

(** Lines 130-143, after [await this.getToken()] settled with [r]: the
    instance, or the same error thrown again. *)
Definition getApiClient_after (cfg : RedditAuthConfig) (r : Result string)
  : Result ApiClient :=
  match r with
  | Ok tok => Ok (bearer_client cfg tok)
  | Err e => Err e
  end.

(** Line 152: the argument [{ url, ...options }] of [apiClient.request]. *)
Definition request_config (url : string) (options : Obj) : Obj :=
  Obj_spread [("url", url)] options.

(** Lines 152-161, after [apiClient.request] settled with [r]. *)
Definition request_after (r : Result AxiosResponse) : Result string :=
  Result_map data r.

(** ** The world: one client, its promises and the jobs that run on it *)

(** The promise that [requestToken] returns. *)
Inductive Promise :=
| Pending
| Settled (r : Result RedditToken).

(** The public method a caller invoked.  [getApiClient] and [request] begin
    by awaiting [getToken]. *)
Inductive Op :=
| GetToken
| GetApiClient
| Request (url : string) (options : Obj).

(** A call suspended inside [getToken], awaiting promise [awaits]. *)
Record Frame := {
  caller : nat;
  op : Op;
  role : Role;
  awaits : nat;
}.

(** What a call finally hands to its caller. *)
Inductive Value :=
| TokenString (accessToken : string)
| ApiInstance (c : ApiClient)
| ResponseData (d : string).

Record World := {
  this : Client;
  Date_now : Z;
  promises : list Promise;          (* promise [p] is [promises !! p] *)
  suspended : list Frame;           (* oldest first *)
  posts : list AuthPost;            (* calls to the authorization endpoint *)
  api_requests : list (nat * ApiClient * Obj);  (* calls of [apiClient.request] *)
  api_waiting : list nat;           (* callers suspended at line 152 *)
  settled : list (nat * Result Value);  (* finished calls, oldest first *)
}.

(** [new RedditClient(cfg)] at time [now] (lines 24-25, 27-44). *)
Definition init (cfg : RedditAuthConfig) (now : Z) : World :=
  {| this := {| config := cfg; token := None; tokenPromise := None |};
     Date_now := now; promises := []; suspended := []; posts := [];
     api_requests := []; api_waiting := []; settled := [] |}.

Definition settle (c : nat) (r : Result Value) (w : World) : World :=
  {| this := this w; Date_now := Date_now w; promises := promises w;
     suspended := suspended w; posts := posts w;
     api_requests := api_requests w; api_waiting := api_waiting w;
     settled := settled w ++ [(c, r)] |}.

Definition suspend (f : Frame) (w : World) : World :=
  {| this := this w; Date_now := Date_now w; promises := promises w;
     suspended := suspended w ++ [f]; posts := posts w;
     api_requests := api_requests w; api_waiting := api_waiting w;
     settled := settled w |}.

(** What the rest of the call does once [getToken] has settled with [r]:
    [getToken] itself is finished, [getApiClient] builds its instance
    (lines 133-143), [request] goes on to line 152 and suspends there, or
    passes the error on (lines 158-161). *)
Definition continue (c : nat) (o : Op) (r : Result string) (w : World)
  : World :=
  match o with
  | GetToken => settle c (Result_map TokenString r) w
  | GetApiClient =>
      settle c (Result_map ApiInstance
                  (getApiClient_after (config (this w)) r)) w
  | Request url options =>
      match getApiClient_after (config (this w)) r with
      | Ok client =>
          {| this := this w; Date_now := Date_now w; promises := promises w;
             suspended := suspended w; posts := posts w;
             api_requests :=
               api_requests w ++ [(c, client, request_config url options)];
             api_waiting := api_waiting w ++ [c];
             settled := settled w |}
      | Err e => settle c (Err e) w
      end
  end.

(** Lines 50-65: the first run of [getToken], up to its first [await] or
    its [return]. *)
Definition getToken_call (c : nat) (o : Op) (w : World) : World :=
  let cl := this w in
  match tokenPromise cl with
  | Some p =>
      (* line 52 *)
      suspend {| caller := c; op := o; role := Attached; awaits := p |} w
  | None =>
      match fresh_token (token cl) (Date_now w) with
      | Some t =>
          (* line 58 *)
          continue c o (Ok (Token.accessToken t)) w
      | None =>
        (* lines 62 and 65: [requestToken] runs up to its [await] (or
           throws), its promise is stored, and the frame suspends on it *)
        let p := length (promises w) in
        let started := requestToken_begin (config cl) (token cl) in
        {| this := {| config := config cl; token := token cl;
                      tokenPromise := Some p |};
           Date_now := Date_now w;
           promises := promises w ++
                       [match started with
                        | Ok _ => Pending
                        | Err e => Settled (Err e)
                        end];
           suspended := suspended w ++
                        [{| caller := c; op := o; role := Initiator;
                            awaits := p |}];
           posts := posts w ++
                    match started with
                    | Ok post => [post]
                    | Err _ => []
                    end;
           api_requests := api_requests w; api_waiting := api_waiting w;
           settled := settled w |}
      end
  end.

(** The oldest suspended frame whose promise has settled, the way it
    settled, and the frames that stay suspended. *)
Fixpoint next_frame (ps : list Promise) (fs : list Frame)
  : option (Frame * Result RedditToken * list Frame) :=
  match fs with
  | [] => None
  | f :: fs' =>
      match ps !! awaits f with
      | Some (Settled r) => Some (f, r, fs')
      | _ =>
          match next_frame ps fs' with
          | Some (g, r, rest) => Some (g, r, f :: rest)
          | None => None
          end
      end
  end.

Fixpoint remove_first (c : nat) (l : list nat) : option (list nat) :=
  match l with
  | [] => None
  | x :: l' =>
      if Nat.eqb c x then Some l'
      else match remove_first c l' with
           | Some r => Some (x :: r)
           | None => None
           end
  end.

(** The jobs of the event loop. *)
Inductive Event :=
| Tick (ms : N)                                  (* time passes *)
| Call (c : nat) (o : Op)                        (* caller [c] invokes [o] *)
| Respond (p : nat) (r : Result TokenData)       (* [axios.post] settles *)
| Resume                                         (* a frame of [getToken] resumes *)
| ApiRespond (c : nat) (r : Result AxiosResponse). (* [apiClient.request] settles *)

(** One job.  [None] when the job cannot happen in this world. *)
Definition step (e : Event) (w : World) : option World :=
  match e with
  | Tick ms =>
      Some {| this := this w; Date_now := (Date_now w + Z.of_N ms)%Z;
              promises := promises w; suspended := suspended w;
              posts := posts w; api_requests := api_requests w;
              api_waiting := api_waiting w; settled := settled w |}
  | Call c o => Some (getToken_call c o w)
  | Respond p r =>
      match promises w !! p with
      | Some Pending =>
          let cl := this w in
          Some {| this := cl; Date_now := Date_now w;
                  promises :=
                    <[p := Settled (requestToken_end (config cl) (token cl)
                                      (Date_now w) r)]> (promises w);
                  suspended := suspended w; posts := posts w;
                  api_requests := api_requests w;
                  api_waiting := api_waiting w; settled := settled w |}
      | _ => None
      end
  | Resume =>
      match next_frame (promises w) (suspended w) with
      | Some (f, r, rest) =>
          let '(cl, out) := getToken_resume (role f) r (this w) in
          Some (continue (caller f) (op f) out
                  {| this := cl; Date_now := Date_now w;
                     promises := promises w; suspended := rest;
                     posts := posts w; api_requests := api_requests w;
                     api_waiting := api_waiting w; settled := settled w |})
      | None => None
      end
  | ApiRespond c r =>
      match remove_first c (api_waiting w) with
      | Some rest =>
          Some {| this := this w; Date_now := Date_now w;
                  promises := promises w; suspended := suspended w;
                  posts := posts w; api_requests := api_requests w;
                  api_waiting := rest;
                  settled := settled w ++
                             [(c, Result_map ResponseData (request_after r))] |}
      | None => None
      end
  end.

(** A sequence of jobs. *)
Fixpoint run (es : list Event) (w : World) : option World :=
  match es with
  | [] => Some w
  | e :: es' =>
      match step e w with
      | Some w' => run es' w'
      | None => None
      end
  end.

(** The worlds a client built by [init] can be in. *)
Definition reachable (w : World) : Prop :=
  ∃ cfg now es, run es (init cfg now) = Some w.

(** ** Invariants of the worlds a client can be in *)

(** The promises awaited by the suspended frames that started a refresh. *)
Fixpoint initiated (fs : list Frame) : list nat :=
  match fs with
  | [] => []
  | f :: fs' =>
      match role f with
      | Initiator => awaits f :: initiated fs'
      | Attached => initiated fs'
      end
  end.

(** The in-flight handle and the refreshes that are really in flight agree:
    the frame that will clear the handle is the one that set it, and a
    promise still pending is the one the handle names. *)
Definition in_flight_inv (w : World) : Prop :=
  initiated (suspended w) = option_list (tokenPromise (this w)) ∧
  ∀ q, promises w !! q = Some Pending → tokenPromise (this w) = Some q.

(** While a refresh is in flight the cached token is not fresh. *)
Definition stale_inv (w : World) : Prop :=
  ∀ p, tokenPromise (this w) = Some p →
       fresh_token (token (this w)) (Date_now w) = None.

(** ** Schedules of concurrent calls *)

(** Further calls of [getToken], each after some time has passed. *)
Definition later_calls (cs : list (N * nat)) : list Event :=
  flat_map (fun dc => [Tick dc.1; Call dc.2 GetToken]) cs.

(** The time that passes during [later_calls cs]. *)
Definition elapsed (cs : list (N * nat)) : Z :=
  foldr (fun dc z => (Z.of_N dc.1 + z)%Z) 0%Z cs.

(** [getToken] is called by [c0] and then by the callers of [cs] before the
    authorization endpoint has answered; the answer [r] to the refresh [p]
    arrives [d] milliseconds after the last call; then every suspended call
    resumes. *)
Definition concurrent_calls (p c0 : nat) (cs : list (N * nat)) (d : N)
    (r : Result TokenData) : list Event :=
  Call c0 GetToken :: later_calls cs ++ [Tick d; Respond p r] ++
  replicate (S (length cs)) Resume.

(** The same calls when [requestToken] threw: there is no answer to wait
    for. *)
Definition concurrent_calls_thrown (c0 : nat) (cs : list (N * nat))
  : list Event :=
  Call c0 GetToken :: later_calls cs ++ replicate (S (length cs)) Resume.

(** The frame of a call of [getToken] that found refresh [p] in flight. *)
Definition attached_frame (p c : nat) : Frame :=
  {| caller := c; op := GetToken; role := Attached; awaits := p |}.

(** What [getToken] hands to its caller when the refresh settled with
    [res]. *)
Definition token_outcome (res : Result RedditToken) : Result Value :=
  Result_map TokenString (Result_map Token.accessToken res).

(** A client without credentials never gets past line 97: it caches no
    token, posts nothing, and every promise and every finished call carries
    the error of line 97. *)
Definition no_credentials_inv (w : World) : Prop :=
  token (this w) = None ∧ posts w = [] ∧ api_waiting w = [] ∧
  (∀ p P, promises w !! p = Some P → P = Settled (Err ConfigurationError)) ∧
  (∀ c r, (c, r) ∈ settled w → r = Err ConfigurationError).

(** ** Sample configurations and responses *)

(** Username and password only. *)
Definition cfg_password : RedditAuthConfig :=
  Config.mk "id" "secret" (Some "alice") (Some "hunter2")
    "MyRedditApp/1.0.0" None.

(** A refresh token as well as username and password. *)
Definition cfg_both : RedditAuthConfig :=
  Config.mk "id" "secret" (Some "alice") (Some "hunter2")
    "MyRedditApp/1.0.0" (Some "RT0").

(** Neither. *)
Definition cfg_none : RedditAuthConfig :=
  Config.mk "id" "secret" None None "MyRedditApp/1.0.0" None.

(** The response of the specification's scenario: no [refresh_token]. *)
Definition data_AT1 : TokenData :=
  {| access_token := "AT1"; token_type := "bearer"; expires_in := 3600;
     refresh_token := None; scope := "read" |}.

(** A response that brings a refresh token. *)
Definition data_AT2 : TokenData :=
  {| access_token := "AT2"; token_type := "bearer"; expires_in := 3600;
     refresh_token := Some "RT1"; scope := "read" |}.

(** The token that [cfg_password] caches from [data_AT1] received at time
    0. *)
Definition token_AT1 : RedditToken :=
  Token.mk "AT1" "bearer" 3600 None "read" 3600000.

(** A client of [cfg_password] ten seconds after it cached [token_AT1]. *)
Definition world_cached : World :=
  {| this := {| config := cfg_password; token := Some token_AT1;
                tokenPromise := None |};
     Date_now := 10000;
     promises := [Settled (Ok token_AT1)];
     suspended := [];
     posts := [{| post_url := "/api/v1/access_token";
                  post_form := [("grant_type", "password");
                                ("username", "alice");
                                ("password", "hunter2")];
                  post_basic := "id:secret" |}];
     api_requests := []; api_waiting := [];
     settled := [(1, Ok (TokenString "AT1"))] |}.

(** A token whose response brought the refresh token [RT1], expired at
    time 3600000. *)
Definition token_AT2 : RedditToken :=
  Token.mk "AT2" "bearer" 3600 (Some "RT1") "read" 3600000.

(** A client of [cfg_both] whose cached [token_AT2] has expired. *)
Definition world_expired : World :=
  {| this := {| config := cfg_both; token := Some token_AT2;
                tokenPromise := None |};
     Date_now := 4000000;
     promises := [Settled (Ok token_AT2)];
     suspended := [];
     posts := [{| post_url := "/api/v1/access_token";
                  post_form := [("grant_type", "refresh_token");
                                ("refresh_token", "RT0")];
                  post_basic := "id:secret" |}];
     api_requests := []; api_waiting := [];
     settled := [(1, Ok (TokenString "AT2"))] |}.

(** ** What a call of [request] comes to *)


(** ** JavaScript numbers at line 110 *)

(** A JavaScript number is an IEEE double.  [double_of z] is the double
    that the exact integer result [z] of an addition or a multiplication is
    rounded to: [z] itself when it fits in 53 bits, else the nearest
    multiple of the power of two that leaves 53 bits, ties to the even
    one; [None] stands for an infinity. *)
Definition double_of (z : Z) : option Z :=
  let a := Z.abs z in
  let s := (Z.log2 a - 52)%Z in
  if (s <=? 0)%Z then Some z
  else
    let q := Z.shiftr a s in
    let r := Z.land a (Z.ones s) in
    let half := Z.shiftl 1 (s - 1) in
    let q' := if (half <? r)%Z || ((r =? half)%Z && Z.odd q)
              then (q + 1)%Z else q in
    let m := Z.shiftl q' s in
    if (2 ^ 1024 <=? m)%Z then None else Some (Z.sgn z * m)%Z.

(** Line 110: [now + (response.data.expires_in * 1000)] on numbers that
    hold integers. *)
Definition expiresAt_line110 (now expires_in : Z) : option Z :=
  match double_of (expires_in * 1000) with
  | Some ms => double_of (now + ms)
  | None => None
  end.

(** ** The constructor, lines 27-44, and [main] of [index.ts] *)

(** [process.env.NAME || fallback], where a variable that is not set reads
    as [undefined]. *)
Definition env_or (env : gmap string string) (name fallback : string)
  : string :=
  default "" (js_or (env !! name) (Some fallback)).

(** Lines 28-35: [this.config].  A configuration that is passed is taken as
    it is; otherwise one is read from the environment. *)
Definition constructor_config (config : option RedditAuthConfig)
    (env : gmap string string) : RedditAuthConfig :=
  match config with
  | Some c => c
  | None =>
      Config.mk (env_or env "REDDIT_CLIENT_ID" "")
        (env_or env "REDDIT_CLIENT_SECRET" "")
        (env !! "REDDIT_USERNAME")
        (env !! "REDDIT_PASSWORD")
        (env_or env "REDDIT_USER_AGENT" "MyRedditApp/1.0.0")
        (env !! "REDDIT_REFRESH_TOKEN")
  end.

(** Lines 37-43: [this.axios], the instance the refresh is posted with. *)
Definition auth_instance (cfg : RedditAuthConfig) : ApiClient :=
  {| baseURL := "https://www.reddit.com";
     headers := [("Content-Type", "application/x-www-form-urlencoded");
                 ("User-Agent", Config.userAgent cfg)] |}.

(** [new RedditClient(config)] in environment [env] at time [now]. *)
Definition new_RedditClient (config : option RedditAuthConfig)
    (env : gmap string string) (now : Z) : World :=
  init (constructor_config config env) now.

(** [index.ts], lines 7-9: [main] builds a client from the environment and
    calls [getToken]; this is the world in which that call is suspended or
    finished. *)
Definition main (env : gmap string string) (now : Z) : World :=
  getToken_call 0 GetToken (new_RedditClient None env now).

(** ** More invariants *)

(** Identifiers in use name promises that exist. *)
Definition ids_inv (w : World) : Prop :=
  (∀ p, tokenPromise (this w) = Some p → p < length (promises w)) ∧
  Forall (fun f => awaits f < length (promises w)) (suspended w).

(** The cached token and every access token handed to a caller of
    [getToken] come from a refresh that was fulfilled. *)
Definition provenance_inv (w : World) : Prop :=
  (∀ t, token (this w) = Some t → Settled (Ok t) ∈ promises w) ∧
  (∀ c s, (c, Ok (TokenString s)) ∈ settled w →
          ∃ t, Settled (Ok t) ∈ promises w ∧ Token.accessToken t = s).



(** Jobs that are not answers: time passing and calls. *)
Definition is_tick_or_call (e : Event) : bool :=
  match e with
  | Tick _ | Call _ _ => true
  | _ => false
  end.

(** The frames of the calls among [es] when each finds refresh [p] in
    flight. *)
Definition attached_of (p : nat) (es : list Event) : list Frame :=
  flat_map (fun e =>
              match e with
              | Call c o =>
                  [{| caller := c; op := o; role := Attached; awaits := p |}]
              | _ => []
              end) es.

(** ** Rounds of calls of any of the three methods *)

(** Further calls, each of its own method, each after some time. *)
Definition later_calls_of (cs : list (N * (nat * Op))) : list Event :=
  flat_map (fun x => [Tick x.1; Call x.2.1 x.2.2]) cs.

Definition elapsed_of (cs : list (N * (nat * Op))) : Z :=
  foldr (fun x z => (Z.of_N x.1 + z)%Z) 0%Z cs.

(** The round of [concurrent_calls] with callers of any method. *)
Definition concurrent_calls_of (p : nat) (first : nat * Op)
    (cs : list (N * (nat * Op))) (d : N) (r : Result TokenData)
  : list Event :=
  Call first.1 first.2 :: later_calls_of cs ++ [Tick d; Respond p r] ++
  replicate (S (length cs)) Resume.

(** The frame of a call of any method that found refresh [p] in flight. *)
Definition attached_frame_of (p : nat) (co : nat * Op) : Frame :=
  {| caller := co.1; op := co.2; role := Attached; awaits := p |}.

(** The requests that the callers of [request] among [cs] issue when
    [getToken] settled with [out]: none when it failed, and otherwise one
    each, through an instance for the resource host that carries the token
    and the user agent. *)
Definition requests_of (cfg : RedditAuthConfig) (out : Result string)
    (cs : list (nat * Op)) : list (nat * ApiClient * Obj) :=
  flat_map (fun co =>
              match co.2, out with
              | Request url options, Ok tok =>
                  [(co.1,
                    {| baseURL := "https://oauth.reddit.com";
                       headers := [("Authorization", "Bearer " +:+ tok);
                                   ("User-Agent", Config.userAgent cfg)] |},
                    request_config url options)]
              | _, _ => []
              end) cs.

(** What the callers among [cs] have received once [getToken] has settled
    with [out]: the callers of [getToken] the access token, the callers of
    [getApiClient] an instance as above, both the error when it failed; the
    callers of [request] the error, or nothing yet. *)
Definition values_of (cfg : RedditAuthConfig) (out : Result string)
    (cs : list (nat * Op)) : list (nat * Result Value) :=
  flat_map (fun co =>
              match co.2, out with
              | GetToken, Ok tok => [(co.1, Ok (TokenString tok))]
              | GetApiClient, Ok tok =>
                  [(co.1,
                    Ok (ApiInstance
                          {| baseURL := "https://oauth.reddit.com";
                             headers := [("Authorization", "Bearer " +:+ tok);
                                         ("User-Agent",
                                          Config.userAgent cfg)] |}))]
              | Request _ _, Ok _ => []
              | _, Err e => [(co.1, Err e)]
              end) cs.

(** ** More samples *)

(** An environment with every variable of the constructor set. *)
Definition env_full : gmap string string :=
  list_to_map [("REDDIT_CLIENT_ID", "id"); ("REDDIT_CLIENT_SECRET", "secret");
               ("REDDIT_USERNAME", "alice"); ("REDDIT_PASSWORD", "hunter2");
               ("REDDIT_USER_AGENT", "bot/2.0");
               ("REDDIT_REFRESH_TOKEN", "RT0")].

(** An environment whose refresh token and user agent are set to the empty
    string. *)
Definition env_blank : gmap string string :=
  list_to_map [("REDDIT_CLIENT_ID", "id"); ("REDDIT_CLIENT_SECRET", "secret");
               ("REDDIT_USERNAME", "alice"); ("REDDIT_PASSWORD", "hunter2");
               ("REDDIT_USER_AGENT", ""); ("REDDIT_REFRESH_TOKEN", "")].

(** Username without password. *)
Definition cfg_half : RedditAuthConfig :=
  Config.mk "id" "secret" (Some "alice") None "MyRedditApp/1.0.0" None.

(** A configured refresh token that is the empty string. *)
Definition cfg_blank_refresh : RedditAuthConfig :=
  Config.mk "id" "secret" (Some "alice") (Some "hunter2")
    "MyRedditApp/1.0.0" (Some "").

(** [world_cached] fifty minutes later: [token_AT1] expires in exactly sixty
    seconds. *)
Definition world_boundary : World :=
  {| this := this world_cached; Date_now := 3540000;
     promises := promises world_cached; suspended := [];
     posts := posts world_cached; api_requests := []; api_waiting := [];
     settled := settled world_cached |}.

(** A client of [cfg_password] whose first refresh has just been answered
    with a failure while three calls wait for it. *)
Definition world_answered : World :=
  {| this := {| config := cfg_password; token := None;
                tokenPromise := Some 0 |};
     Date_now := 12;
     promises := [Settled (Err (AxiosError "401"))];
     suspended :=
       [{| caller := 1; op := GetToken; role := Initiator; awaits := 0 |};
        {| caller := 2; op := GetToken; role := Attached; awaits := 0 |};
        {| caller := 3; op := Request "/api/v1/me" []; role := Attached;
           awaits := 0 |}];
     posts := [{| post_url := "/api/v1/access_token";
                  post_form := [("grant_type", "password");
                                ("username", "alice");
                                ("password", "hunter2")];
                  post_basic := "id:secret" |}];
     api_requests := []; api_waiting := []; settled := [] |}.

(** * Properties *)

(** ** Running jobs *)

Lemma run_app (es1 es2 : list Event) (w : World) :
  run (es1 ++ es2) w =
  match run es1 w with
  | Some w' => run es2 w'
  | None => None
  end.
Proof.
  revert w. induction es1 as [|e es1 IH]; intros w; simpl; [done|].
  destruct (step e w); [apply IH|done].
Qed.

(** A property that every job preserves holds after every sequence of
    jobs. *)
Lemma run_preserves (P : World → Prop) :
  (∀ e w w', P w → step e w = Some w' → P w') →
  ∀ es w w', P w → run es w = Some w' → P w'.
Proof.
  intros Hstep es. induction es as [|e es IH]; intros w w' Hw Hrun; simpl in Hrun.
  - by simplify_eq.
  - destruct (step e w) as [w1|] eqn:He; [|done]. eauto.
Qed.

Lemma reachable_ind' (P : World → Prop) :
  (∀ cfg now, P (init cfg now)) →
  (∀ e w w', P w → step e w = Some w' → P w') →
  ∀ w, reachable w → P w.
Proof.
  intros Hinit Hstep w (cfg & now & es & Hrun).
  eapply run_preserves; [exact Hstep|apply Hinit|exact Hrun].
Qed.

(** ** What [continue] and [getToken_call] leave alone *)

Lemma continue_this c o r w : this (continue c o r w) = this w.
Proof.
  destruct o; simpl; try done.
  by destruct (getApiClient_after _ _).
Qed.

Lemma continue_promises c o r w : promises (continue c o r w) = promises w.
Proof.
  destruct o; simpl; try done.
  by destruct (getApiClient_after _ _).
Qed.

Lemma continue_suspended c o r w : suspended (continue c o r w) = suspended w.
Proof.
  destruct o; simpl; try done.
  by destruct (getApiClient_after _ _).
Qed.

Lemma continue_posts c o r w : posts (continue c o r w) = posts w.
Proof.
  destruct o; simpl; try done.
  by destruct (getApiClient_after _ _).
Qed.

Lemma continue_Date_now c o r w : Date_now (continue c o r w) = Date_now w.
Proof.
  destruct o; simpl; try done.
  by destruct (getApiClient_after _ _).
Qed.

Lemma getToken_resume_config role r cl :
  config (getToken_resume role r cl).1 = config cl.
Proof. by destruct role, r. Qed.

Lemma getToken_call_config c o w :
  config (this (getToken_call c o w)) = config (this w).
Proof.
  unfold getToken_call. destruct (tokenPromise (this w)); [done|].
  destruct (fresh_token _ _); [|done].
  by rewrite continue_this.
Qed.

Lemma step_config e w w' :
  step e w = Some w' → config (this w') = config (this w).
Proof.
  destruct e; simpl; intros H.
  - by simplify_eq.
  - simplify_eq. apply getToken_call_config.
  - destruct (promises w !! p) as [[|]|]; by simplify_eq.
  - destruct (next_frame _ _) as [[[f r] rest]|]; [|done].
    destruct (getToken_resume (role f) r (this w)) as [cl out] eqn:Hres.
    simplify_eq. rewrite continue_this. simpl.
    change cl with (cl, out).1. rewrite <- Hres. apply getToken_resume_config.
  - destruct (remove_first _ _); by simplify_eq.
Qed.

(** ** The frame that [Resume] picks *)

Lemma next_frame_split ps fs f r rest :
  next_frame ps fs = Some (f, r, rest) →
  ∃ l1 l2, fs = l1 ++ f :: l2 ∧ rest = l1 ++ l2 ∧
           ps !! awaits f = Some (Settled r).
Proof.
  revert rest. induction fs as [|g fs IH]; intros rest H; simpl in H; [done|].
  destruct (ps !! awaits g) as [[|r']|] eqn:Hg.
  - destruct (next_frame ps fs) as [[[f' r''] rest']|]; [|done].
    simplify_eq. destruct (IH _ eq_refl) as (l1 & l2 & -> & -> & Hf).
    by exists (g :: l1), l2.
  - simplify_eq. by exists [], rest.
  - destruct (next_frame ps fs) as [[[f' r''] rest']|]; [|done].
    simplify_eq. destruct (IH _ eq_refl) as (l1 & l2 & -> & -> & Hf).
    by exists (g :: l1), l2.
Qed.

Lemma initiated_app fs1 fs2 :
  initiated (fs1 ++ fs2) = initiated fs1 ++ initiated fs2.
Proof.
  induction fs1 as [|f fs1 IH]; simpl; [done|].
  destruct (role f); simpl; by rewrite IH.
Qed.

(** ** The invariants hold in every reachable world *)

Lemma stale_inv_step e w w' : stale_inv w → step e w = Some w' → stale_inv w'.
Proof.
  unfold stale_inv. intros Hinv Hstep p. destruct e; simpl in Hstep.
  - simplify_eq. simpl. intros Hp. specialize (Hinv p Hp).
    unfold fresh_token in *. destruct (token (this w)) as [t|]; [|done].
    destruct (Date_now w + 60000 <? Token.expiresAt t)%Z eqn:Hlt; [done|].
    apply Z.ltb_ge in Hlt.
    destruct (Date_now w + Z.of_N ms + 60000 <? Token.expiresAt t)%Z eqn:Hlt';
      [|done].
    apply Z.ltb_lt in Hlt'. lia.
  - simplify_eq. unfold getToken_call.
    destruct (tokenPromise (this w)) as [q|] eqn:Hq; simpl.
    + rewrite Hq. intros _. by eapply Hinv.
    + destruct (fresh_token _ _) eqn:Hfresh; simpl; [|done].
      rewrite continue_this, Hq. done.
  - destruct (promises w !! p0) as [[|]|]; simplify_eq; simpl. apply Hinv.
  - destruct (next_frame _ _) as [[[f r] rest]|]; [|done].
    destruct (role f) eqn:Hrole; simpl in Hstep.
    + simplify_eq. rewrite continue_this, continue_Date_now. simpl. apply Hinv.
    + destruct r; simplify_eq; rewrite continue_this; done.
  - destruct (remove_first _ _); simplify_eq; simpl. apply Hinv.
Qed.

Lemma in_flight_inv_step e w w' :
  in_flight_inv w → step e w = Some w' → in_flight_inv w'.
Proof.
  unfold in_flight_inv. intros [Hini Hpend] Hstep. destruct e; simpl in Hstep.
  - by simplify_eq.
  - simplify_eq. unfold getToken_call.
    destruct (tokenPromise (this w)) as [q|] eqn:Hq; simpl.
    + rewrite Hq, initiated_app, Hini. simpl. split; [done|].
      intros q' Hq'. by apply Hpend.
    + destruct (fresh_token _ _); simpl.
      * rewrite continue_this, continue_suspended, continue_promises, Hq.
        done.
      * rewrite initiated_app, Hini. simpl. split; [done|].
        intros q' Hq'.
        destruct (decide (q' < length (promises w))) as [Hlt|Hge].
        -- rewrite lookup_app_l in Hq' by done. by apply Hpend in Hq'.
        -- rewrite lookup_app_r in Hq' by lia.
           destruct (q' - length (promises w)) as [|n] eqn:Hn; [|done].
           f_equal. lia.
  - destruct (promises w !! p) as [[|]|] eqn:Hp; simplify_eq; simpl.
    split; [done|]. intros q Hq.
    destruct (decide (p = q)) as [->|Hne].
    + rewrite list_lookup_insert_eq in Hq by (by eapply lookup_lt_Some).
      done.
    + rewrite list_lookup_insert_ne in Hq by done. by apply Hpend.
  - destruct (next_frame _ _) as [[[f r] rest]|] eqn:Hnext; [|done].
    destruct (next_frame_split _ _ _ _ _ Hnext) as (l1 & l2 & Hfs & -> & Hf).
    rewrite Hfs, initiated_app in Hini. simpl in Hini.
    destruct (role f) eqn:Hrole; simpl in Hstep.
    + simplify_eq.
      rewrite continue_this, continue_suspended, continue_promises. simpl.
      by rewrite initiated_app.
    + assert (tokenPromise (this w) = Some (awaits f) ∧
              initiated l1 = [] ∧ initiated l2 = []) as (Htp & Hl1 & Hl2).
      { destruct (tokenPromise (this w)) as [q|]; simpl in Hini.
        - destruct (initiated l1) as [|a [|b l]]; simpl in Hini;
            by simplify_eq.
        - by destruct (initiated l1). }
      assert (∀ q, promises w !! q ≠ Some Pending) as Hnone.
      { intros q Hq. pose proof (Hpend q Hq) as Hq'.
        rewrite Htp in Hq'. injection Hq' as <-. by rewrite Hf in Hq. }
      destruct r; simplify_eq;
        rewrite continue_this, continue_suspended, continue_promises; simpl;
        rewrite initiated_app, Hl1, Hl2; (split; [done|]);
        intros q Hq; by apply Hnone in Hq.
  - destruct (remove_first _ _); by simplify_eq.
Qed.

Lemma reachable_stale_inv w : reachable w → stale_inv w.
Proof.
  apply reachable_ind'; [by intros cfg now p|].
  intros e w0 w1. apply stale_inv_step.
Qed.

Lemma reachable_in_flight_inv w : reachable w → in_flight_inv w.
Proof.
  apply reachable_ind'.
  - intros cfg now. split; [done|]. by intros q.
  - intros e w0 w1. apply in_flight_inv_step.
Qed.

(** ** One round of concurrent calls *)

(** Calls that arrive while a refresh is in flight only suspend. *)
Lemma run_later_calls cs : ∀ w p,
  tokenPromise (this w) = Some p →
  run (later_calls cs) w =
  Some {| this := this w; Date_now := (Date_now w + elapsed cs)%Z;
          promises := promises w;
          suspended := suspended w ++ map (attached_frame p) cs.*2;
          posts := posts w; api_requests := api_requests w;
          api_waiting := api_waiting w; settled := settled w |}.
Proof.
  induction cs as [|[d c] cs IH]; intros w p Hp; simpl.
  - rewrite Z.add_0_r, app_nil_r. by destruct w.
  - unfold getToken_call. simpl. rewrite Hp.
    erewrite IH by (simpl; exact Hp). simpl.
    rewrite <- app_assoc, Z.add_assoc. done.
Qed.

(** Once the promise has settled, the attached calls resume one after the
    other and all receive its outcome. *)
Lemma run_resume_attached cs : ∀ w p res,
  promises w !! p = Some (Settled res) →
  suspended w = map (attached_frame p) cs →
  run (replicate (length cs) Resume) w =
  Some {| this := this w; Date_now := Date_now w; promises := promises w;
          suspended := []; posts := posts w;
          api_requests := api_requests w; api_waiting := api_waiting w;
          settled := settled w ++ map (fun c => (c, token_outcome res)) cs |}.
Proof.
  induction cs as [|c cs IH]; intros w p res Hp Hs; simpl.
  - rewrite app_nil_r. destruct w; simpl in *. by subst.
  - rewrite Hs. simpl. rewrite Hp. simpl.
    erewrite IH; [|simpl; exact Hp|simpl; reflexivity]. simpl.
    by rewrite <- app_assoc.
Qed.

(** The frame that started the refresh resumes first: it stores the token
    or keeps the old one, and clears the handle; then the attached calls
    resume. *)
Lemma run_resume_round cs w p c0 res :
  promises w !! p = Some (Settled res) →
  suspended w =
    {| caller := c0; op := GetToken; role := Initiator; awaits := p |} ::
    map (attached_frame p) cs →
  run (replicate (S (length cs)) Resume) w =
  Some {| this := {| config := config (this w);
                     token := match res with
                              | Ok t => Some t
                              | Err _ => token (this w)
                              end;
                     tokenPromise := None |};
          Date_now := Date_now w; promises := promises w;
          suspended := []; posts := posts w;
          api_requests := api_requests w; api_waiting := api_waiting w;
          settled := settled w ++
                     map (fun c => (c, token_outcome res)) (c0 :: cs) |}.
Proof.
  intros Hp Hs. simpl. rewrite Hs. simpl. rewrite Hp. simpl.
  destruct res as [t|e]; simpl;
    (erewrite run_resume_attached; [|simpl; exact Hp|simpl; reflexivity]);
    simpl; by rewrite <- app_assoc.
Qed.

Lemma lookup_snoc {A} (l : list A) (x : A) : (l ++ [x]) !! length l = Some x.
Proof. by apply list_lookup_middle. Qed.

Lemma insert_snoc {A} (l : list A) (x y : A) :
  <[length l := y]> (l ++ [x]) = l ++ [y].
Proof.
  rewrite insert_app_r_alt by lia. by rewrite Nat.sub_diag.
Qed.

(** A round of concurrent calls on a client that is idle, has no fresh
    token and can determine a grant: one post, and every call receives the
    outcome of the one refresh. *)
Lemma run_concurrent_calls w c0 cs d r post :
  tokenPromise (this w) = None →
  suspended w = [] →
  fresh_token (token (this w)) (Date_now w) = None →
  requestToken_begin (config (this w)) (token (this w)) = Ok post →
  let now' := (Date_now w + elapsed cs + Z.of_N d)%Z in
  let res := requestToken_end (config (this w)) (token (this w)) now' r in
  run (concurrent_calls (length (promises w)) c0 cs d r) w =
  Some {| this := {| config := config (this w);
                     token := match res with
                              | Ok t => Some t
                              | Err _ => token (this w)
                              end;
                     tokenPromise := None |};
          Date_now := now';
          promises := promises w ++ [Settled res];
          suspended := [];
          posts := posts w ++ [post];
          api_requests := api_requests w; api_waiting := api_waiting w;
          settled := settled w ++
                     map (fun c => (c, token_outcome res)) (c0 :: cs.*2) |}.
Proof.
  intros Htp Hs Hfresh Hbegin now' res.
  unfold concurrent_calls. cbn [run step].
  unfold getToken_call. rewrite Htp, Hfresh, Hbegin, Hs.
  rewrite run_app.
  erewrite run_later_calls by (simpl; reflexivity).
  cbn [run step this Date_now promises suspended posts api_requests
       api_waiting settled config token tokenPromise app].
  rewrite lookup_snoc, insert_snoc, <- (length_fmap snd cs).
  erewrite run_resume_round with (res := res);
    [|simpl; apply lookup_snoc|simpl; reflexivity].
  done.
Qed.

(** The same round when [requestToken] throws: no post, and every call
    receives the thrown error. *)
Lemma run_concurrent_calls_thrown w c0 cs e :
  tokenPromise (this w) = None →
  suspended w = [] →
  fresh_token (token (this w)) (Date_now w) = None →
  requestToken_begin (config (this w)) (token (this w)) = Err e →
  run (concurrent_calls_thrown c0 cs) w =
  Some {| this := {| config := config (this w); token := token (this w);
                     tokenPromise := None |};
          Date_now := (Date_now w + elapsed cs)%Z;
          promises := promises w ++ [Settled (Err e)];
          suspended := [];
          posts := posts w;
          api_requests := api_requests w; api_waiting := api_waiting w;
          settled := settled w ++
                     map (fun c => (c, Err e)) (c0 :: cs.*2) |}.
Proof.
  intros Htp Hs Hfresh Hbegin.
  unfold concurrent_calls_thrown. cbn [run step].
  unfold getToken_call. rewrite Htp, Hfresh, Hbegin, Hs.
  rewrite run_app.
  erewrite run_later_calls by (simpl; reflexivity).
  cbn [this Date_now promises suspended posts api_requests
       api_waiting settled config token tokenPromise app].
  rewrite <- (length_fmap snd cs).
  erewrite run_resume_round with (res := Err e);
    [|simpl; apply lookup_snoc|simpl; reflexivity].
  simpl. by rewrite app_nil_r.
Qed.

Lemma world_cached_reachable : reachable world_cached.
Proof.
  exists cfg_password, 0%Z,
    (concurrent_calls 0 1 [] 0 (Ok data_AT1) ++ [Tick 10000]).
  reflexivity.
Qed.

(** ** The freshness check *)

Lemma fresh_token_Some tok now t :
  tok = Some t → (Token.expiresAt t > now + 60000)%Z →
  fresh_token tok now = Some t.
Proof.
  intros -> Hlt. unfold fresh_token.
  destruct (now + 60000 <? Token.expiresAt t)%Z eqn:E; [done|].
  apply Z.ltb_ge in E. lia.
Qed.

Lemma fresh_token_stale t now :
  (Token.expiresAt t ≤ now + 60000)%Z → fresh_token (Some t) now = None.
Proof.
  intros H. unfold fresh_token.
  destruct (now + 60000 <? Token.expiresAt t)%Z eqn:E; [|done].
  apply Z.ltb_lt in E. lia.
Qed.

(** A token that is not fresh does not become fresh as time passes. *)
Lemma fresh_token_later tok now (d : N) :
  fresh_token tok now = None → fresh_token tok (now + Z.of_N d) = None.
Proof.
  unfold fresh_token. destruct tok as [t|]; [|done].
  destruct (now + 60000 <? Token.expiresAt t)%Z eqn:E; [done|]. intros _.
  apply Z.ltb_ge in E.
  destruct (now + Z.of_N d + 60000 <? Token.expiresAt t)%Z eqn:E'; [|done].
  apply Z.ltb_lt in E'. lia.
Qed.

(** C2: in every world the client can be in, if the cached token's
    [expiresAt] exceeds the current time plus 60 seconds, a call of
    [getToken] settles at once with that token's [accessToken]; nothing is
    posted to the authorization endpoint, no promise is created and the
    client's fields stay as they are. *)
Theorem C2_fresh_token_served_from_cache (w : World) (c : nat)
    (t : RedditToken) :
  reachable w →
  token (this w) = Some t →
  (Token.expiresAt t > Date_now w + 60000)%Z →
  ∃ w', step (Call c GetToken) w = Some w' ∧
        settled w' = settled w ++ [(c, Ok (TokenString (Token.accessToken t)))] ∧
        posts w' = posts w ∧ promises w' = promises w ∧
        suspended w' = suspended w ∧ this w' = this w.
Proof.
  intros Hreach Htok Hexp.
  pose proof (fresh_token_Some _ _ _ Htok Hexp) as Hfresh.
  assert (tokenPromise (this w) = None) as Htp.
  { destruct (tokenPromise (this w)) as [p|] eqn:Hp; [|done].
    apply reachable_stale_inv in Hreach. specialize (Hreach p Hp).
    by rewrite Hfresh in Hreach. }
  eexists. split; [reflexivity|].
  unfold getToken_call. rewrite Htp, Hfresh. by simpl.
Qed.

Lemma C2_witness :
  ∃ w', step (Call 2 GetToken) world_cached = Some w' ∧
        settled w' = settled world_cached ++ [(2, Ok (TokenString "AT1"))] ∧
        posts w' = posts world_cached ∧
        promises w' = promises world_cached ∧
        suspended w' = suspended world_cached ∧
        this w' = this world_cached.
Proof.
  apply (C2_fresh_token_served_from_cache world_cached 2 token_AT1).
  - exact world_cached_reachable.
  - reflexivity.
  - simpl. lia.
Defined.

(** ** The configuration is never written *)

(** C9: whatever jobs run on a client (calls of [getToken],
    [getApiClient] and [request], the pieces of [requestToken], responses),
    its configuration stays the one given at construction: every field of
    [config] is unchanged.  Only [token] and [tokenPromise] are written. *)
Theorem C9_config_never_modified (es : list Event) (w w' : World) :
  run es w = Some w' →
  config (this w') = config (this w) ∧
  Config.clientId (config (this w')) = Config.clientId (config (this w)) ∧
  Config.clientSecret (config (this w')) = Config.clientSecret (config (this w)) ∧
  Config.username (config (this w')) = Config.username (config (this w)) ∧
  Config.password (config (this w')) = Config.password (config (this w)) ∧
  Config.userAgent (config (this w')) = Config.userAgent (config (this w)) ∧
  Config.refreshToken (config (this w')) = Config.refreshToken (config (this w)).
Proof.
  intros Hrun.
  assert (config (this w') = config (this w)) as ->; [|done].
  revert w Hrun. induction es as [|e es IH]; intros w Hrun; simpl in Hrun.
  - by simplify_eq.
  - destruct (step e w) as [w1|] eqn:He; [|done].
    rewrite (IH _ Hrun). by eapply step_config.
Qed.

Lemma C9_witness :
  config (this world_cached) = config (this (init cfg_password 0)) ∧
  Config.clientId (config (this world_cached)) = "id" ∧
  Config.clientSecret (config (this world_cached)) = "secret" ∧
  Config.username (config (this world_cached)) = Some "alice" ∧
  Config.password (config (this world_cached)) = Some "hunter2" ∧
  Config.userAgent (config (this world_cached)) = "MyRedditApp/1.0.0" ∧
  Config.refreshToken (config (this world_cached)) = None.
Proof.
  apply (C9_config_never_modified
           (concurrent_calls 0 1 [] 0 (Ok data_AT1) ++ [Tick 10000])
           (init cfg_password 0) world_cached).
  reflexivity.
Defined.

(** ** The grant *)

Lemma truthy_Some v : truthy v = true → ∃ s, v = Some s ∧ s ≠ "".
Proof. destruct v as [[|a s]|]; simpl; intros H; try done. by eexists. Qed.

Lemma truthy_nonempty s : s ≠ "" → truthy (Some s) = true.
Proof. by destruct s. Qed.

Lemma grant_data_refresh cfg tok rt :
  known_refreshToken cfg tok = Some rt → rt ≠ "" →
  grant_data cfg tok =
  Ok [("grant_type", "refresh_token"); ("refresh_token", rt)].
Proof.
  intros Hk Hrt. unfold grant_data. rewrite Hk.
  unfold js_or. by rewrite (truthy_nonempty _ Hrt).
Qed.

Lemma grant_data_no_credentials cfg :
  truthy (Config.refreshToken cfg) = false →
  truthy (Config.username cfg) && truthy (Config.password cfg) = false →
  grant_data cfg None = Err ConfigurationError.
Proof.
  intros Hrt Hup. unfold grant_data, known_refreshToken, js_or. simpl.
  by rewrite Hrt, Hup.
Qed.

(** ** A client without credentials *)

Lemma no_credentials_inv_step cfg e w w' :
  grant_data cfg None = Err ConfigurationError →
  config (this w) = cfg →
  no_credentials_inv w → step e w = Some w' → no_credentials_inv w'.
Proof.
  intros Hgrant Hcfg (Htok & Hposts & Hapi & Hprom & Hset) Hstep.
  destruct e; simpl in Hstep.
  - by simplify_eq.
  - simplify_eq. unfold getToken_call.
    destruct (tokenPromise (this w)) as [q|]; [done|].
    rewrite Htok. simpl. unfold requestToken_begin. rewrite Hgrant. simpl.
    rewrite app_nil_r. repeat split; try done.
    simpl. intros p P HP.
    destruct (decide (p < length (promises w))) as [Hlt|Hge].
    + rewrite lookup_app_l in HP by done. by eapply Hprom.
    + rewrite lookup_app_r in HP by lia.
      destruct (p - length (promises w)); simpl in HP; by simplify_eq.
  - destruct (promises w !! p) as [[|]|] eqn:Hp; simplify_eq.
    by apply Hprom in Hp.
  - destruct (next_frame _ _) as [[[f r] rest]|] eqn:Hnext; [|done].
    destruct (next_frame_split _ _ _ _ _ Hnext) as (l1 & l2 & _ & -> & Hf).
    apply Hprom in Hf. simplify_eq.
    assert (∀ cl c o, token cl = None → no_credentials_inv
              (continue c o (Err ConfigurationError)
                 {| this := cl; Date_now := Date_now w;
                    promises := promises w; suspended := l1 ++ l2;
                    posts := posts w; api_requests := api_requests w;
                    api_waiting := api_waiting w; settled := settled w |}))
      as Hcont.
    { intros cl c o Hcl.
      assert (settled (continue c o (Err ConfigurationError)
                {| this := cl; Date_now := Date_now w;
                   promises := promises w; suspended := l1 ++ l2;
                   posts := posts w; api_requests := api_requests w;
                   api_waiting := api_waiting w; settled := settled w |})
              = settled w ++ [(c, Err ConfigurationError)]) as Hs
        by (by destruct o).
      unfold no_credentials_inv.
      rewrite continue_this, continue_posts, continue_promises, Hs. simpl.
      repeat split; try done.
      - by destruct o.
      - intros c' r' [Hin|Hin%list_elem_of_singleton]%elem_of_app.
        + by eapply Hset.
        + by simplify_eq. }
    destruct (role f); simpl in Hstep; simplify_eq; by apply Hcont.
  - rewrite Hapi in Hstep. done.
Qed.

(** C4: a client constructed with no refresh token and without a
    username/password pair has no token cached; its call of [getToken] is
    rejected with the error of line 97 (ConfigurationError) and nothing is
    posted to the authorization endpoint.  This stays so whatever is called
    on the client afterwards: no post is ever made and every call finishes
    with that error. *)
Theorem C4_no_credentials_fails_without_network (cfg : RedditAuthConfig)
    (now : Z) :
  truthy (Config.refreshToken cfg) = false →
  truthy (Config.username cfg) && truthy (Config.password cfg) = false →
  (∀ c, ∃ w', run [Call c GetToken; Resume] (init cfg now) = Some w' ∧
              settled w' = [(c, Err ConfigurationError)] ∧
              posts w' = []) ∧
  (∀ es w, run es (init cfg now) = Some w →
           posts w = [] ∧
           ∀ c r, (c, r) ∈ settled w → r = Err ConfigurationError).
Proof.
  intros Hrt Hup.
  pose proof (grant_data_no_credentials cfg Hrt Hup) as Hgrant. split.
  - intros c. eexists. split; [|split].
    + simpl. unfold getToken_call, requestToken_begin. simpl.
      rewrite Hgrant. simpl. reflexivity.
    + done.
    + done.
  - intros es w Hrun.
    assert (config (this w) = cfg ∧ no_credentials_inv w) as [_ Hinv].
    { eapply (run_preserves
                (fun w => config (this w) = cfg ∧ no_credentials_inv w));
        [| |exact Hrun].
      - intros e w0 w1 [Hc Hi] Hstep. split.
        + by rewrite (step_config _ _ _ Hstep).
        + by eapply no_credentials_inv_step.
      - split; [done|]. repeat split; try done.
        intros c r Hin. by apply elem_of_nil in Hin. }
    destruct Hinv as (_ & Hposts & _ & _ & Hset). done.
Qed.

Lemma C4_witness :
  (∀ c, ∃ w', run [Call c GetToken; Resume] (init cfg_none 0) = Some w' ∧
              settled w' = [(c, Err ConfigurationError)] ∧
              posts w' = []) ∧
  (∀ es w, run es (init cfg_none 0) = Some w →
           posts w = [] ∧
           ∀ c r, (c, r) ∈ settled w → r = Err ConfigurationError).
Proof.
  apply (C4_no_credentials_fails_without_network cfg_none 0); reflexivity.
Defined.

(** ** The body of the refresh request *)

(** A call that finds no refresh in flight and no fresh token posts what
    [requestToken] built. *)
Lemma getToken_call_posts c o w post :
  tokenPromise (this w) = None →
  fresh_token (token (this w)) (Date_now w) = None →
  requestToken_begin (config (this w)) (token (this w)) = Ok post →
  posts (getToken_call c o w) = posts w ++ [post].
Proof.
  intros Htp Hfresh Hbegin. unfold getToken_call.
  by rewrite Htp, Hfresh, Hbegin.
Qed.

Lemma requestToken_begin_refresh cfg tok rt :
  known_refreshToken cfg tok = Some rt → rt ≠ "" →
  requestToken_begin cfg tok =
  Ok {| post_url := "/api/v1/access_token";
        post_form := [("grant_type", "refresh_token"); ("refresh_token", rt)];
        post_basic := Config.clientId cfg +:+ ":" +:+ Config.clientSecret cfg |}.
Proof.
  intros Hk Hrt. unfold requestToken_begin.
  by rewrite (grant_data_refresh _ _ _ Hk Hrt).
Qed.

Lemma truthy_false_iff v : truthy v = false ↔ v = None ∨ v = Some "".
Proof.
  destruct v as [[|a s]|]; simpl; split; try done; auto.
  - by intros [?|?].
Qed.

(** The cached token's refresh token is the one the client knows. *)
Lemma known_refreshToken_cached cfg t rt :
  Token.refreshToken t = Some rt → rt ≠ "" →
  known_refreshToken cfg (Some t) = Some rt.
Proof.
  intros Hrt Hne. unfold known_refreshToken, js_or. simpl.
  by rewrite Hrt, (truthy_nonempty _ Hne).
Qed.

(** Without one in the cached token, the configured refresh token is. *)
Lemma known_refreshToken_configured cfg tok :
  (∀ t, tok = Some t →
        Token.refreshToken t = None ∨ Token.refreshToken t = Some "") →
  known_refreshToken cfg tok = Config.refreshToken cfg.
Proof.
  intros Hnone. unfold known_refreshToken, js_or.
  destruct tok as [t|]; simpl; [|done].
  by destruct (Hnone t eq_refl) as [-> | ->].
Qed.

(** C5: whatever username and password are configured, a refresh posts
    [grant_type=refresh_token], never [grant_type=password], whenever a
    refresh token is known: with the refresh token [rt] of the cached
    token, which a prior successful refresh stored there, when that token
    has one; and with the configured refresh token [rt] when the cached
    token has none or no token is cached.  (A refresh token is one that is
    not the empty string, as the code tests it.) *)
Theorem C5_refresh_token_grant_takes_precedence (w : World) (c : nat)
    (o : Op) :
  tokenPromise (this w) = None →
  fresh_token (token (this w)) (Date_now w) = None →
  (∀ t rt,
     token (this w) = Some t →
     Token.refreshToken t = Some rt → rt ≠ "" →
     posts (getToken_call c o w) =
     posts w ++
     [{| post_url := "/api/v1/access_token";
         post_form := [("grant_type", "refresh_token");
                       ("refresh_token", rt)];
         post_basic := Config.clientId (config (this w)) +:+ ":" +:+
                       Config.clientSecret (config (this w)) |}]) ∧
  (∀ rt,
     (∀ t, token (this w) = Some t →
           Token.refreshToken t = None ∨ Token.refreshToken t = Some "") →
     Config.refreshToken (config (this w)) = Some rt → rt ≠ "" →
     posts (getToken_call c o w) =
     posts w ++
     [{| post_url := "/api/v1/access_token";
         post_form := [("grant_type", "refresh_token");
                       ("refresh_token", rt)];
         post_basic := Config.clientId (config (this w)) +:+ ":" +:+
                       Config.clientSecret (config (this w)) |}]).
Proof.
  intros Htp Hfresh. split.
  - intros t rt Htok Hrt Hne.
    apply getToken_call_posts; [done..|].
    apply requestToken_begin_refresh; [|done].
    rewrite Htok. by apply known_refreshToken_cached.
  - intros rt Hnone Hrt Hne.
    apply getToken_call_posts; [done..|].
    apply requestToken_begin_refresh; [|done].
    by rewrite known_refreshToken_configured.
Qed.

Lemma C5_witness :
  (Config.username cfg_both = Some "alice" ∧
   Config.password cfg_both = Some "hunter2" ∧
   Config.refreshToken cfg_both = Some "RT0") ∧
  (token (this world_expired) = Some token_AT2 ∧
   Token.refreshToken token_AT2 = Some "RT1" ∧
   posts (getToken_call 2 GetToken world_expired) =
   posts world_expired ++
   [{| post_url := "/api/v1/access_token";
       post_form := [("grant_type", "refresh_token");
                     ("refresh_token", "RT1")];
       post_basic := "id:secret" |}]) ∧
  (token (this (init cfg_both 0)) = None ∧
   posts (getToken_call 1 GetToken (init cfg_both 0)) =
   [{| post_url := "/api/v1/access_token";
       post_form := [("grant_type", "refresh_token");
                     ("refresh_token", "RT0")];
       post_basic := "id:secret" |}]).
Proof.
  split; [done|]. split.
  - split; [done|]. split; [done|].
    destruct (C5_refresh_token_grant_takes_precedence world_expired 2 GetToken
                eq_refl eq_refl) as [Hcached _].
    exact (Hcached token_AT2 "RT1" eq_refl eq_refl ltac:(discriminate)).
  - split; [done|].
    destruct (C5_refresh_token_grant_takes_precedence (init cfg_both 0) 1
                GetToken eq_refl eq_refl) as [_ Hconfigured].
    apply (Hconfigured "RT0"); [intros t Ht; discriminate|done|discriminate].
Defined.

(** C10: when the cached token carries a refresh token and a refresh
    token is configured as well, a refresh posts the cached token's refresh
    token: the one obtained most recently wins over the configured one. *)
Theorem C10_cached_refresh_token_wins (w : World) (c : nat) (o : Op)
    (t : RedditToken) (rt : string) :
  tokenPromise (this w) = None →
  token (this w) = Some t →
  fresh_token (token (this w)) (Date_now w) = None →
  Token.refreshToken t = Some rt →
  rt ≠ "" →
  posts (getToken_call c o w) =
  posts w ++
  [{| post_url := "/api/v1/access_token";
      post_form := [("grant_type", "refresh_token"); ("refresh_token", rt)];
      post_basic := Config.clientId (config (this w)) +:+ ":" +:+
                    Config.clientSecret (config (this w)) |}].
Proof.
  intros Htp Htok Hfresh Hrt Hne.
  apply getToken_call_posts; [done..|].
  apply requestToken_begin_refresh; [|done].
  unfold known_refreshToken, js_or. rewrite Htok. simpl.
  by rewrite Hrt, (truthy_nonempty _ Hne).
Qed.

Lemma C10_witness :
  Config.refreshToken (config (this world_expired)) = Some "RT0" ∧
  posts (getToken_call 2 GetToken world_expired) =
  posts world_expired ++
  [{| post_url := "/api/v1/access_token";
      post_form := [("grant_type", "refresh_token"); ("refresh_token", "RT1")];
      post_basic := "id:secret" |}].
Proof.
  split; [reflexivity|].
  apply (C10_cached_refresh_token_wins world_expired 2 GetToken token_AT2
           "RT1"); done.
Defined.

Lemma world_expired_reachable : reachable world_expired.
Proof.
  exists cfg_both, 0%Z,
    (concurrent_calls 0 1 [] 0 (Ok data_AT2) ++ [Tick 4000000]).
  reflexivity.
Qed.

(** ** The token built from a response *)

(** Without a refresh token in the response, the refresh token the client
    knows is the same after the refresh as before. *)
Lemma known_refreshToken_carried cfg tok now d :
  truthy (refresh_token d) = false →
  Token.refreshToken (make_token cfg tok now d) = known_refreshToken cfg tok ∧
  known_refreshToken cfg (Some (make_token cfg tok now d)) =
  known_refreshToken cfg tok.
Proof.
  intros Hd. unfold make_token, known_refreshToken, js_or. simpl.
  rewrite Hd.
  destruct (truthy (token_refreshToken tok)) eqn:E1; rewrite ?E1; [done|].
  by destruct (truthy (Config.refreshToken cfg)) eqn:E2; rewrite ?E2.
Qed.

(** C6: a successful refresh whose response has no [refresh_token] (or
    an empty one) carries the previously known refresh token forward.  When
    the token cached before the refresh has the refresh token [rt], the new
    cached token has [rt] too, whatever is configured; when the token
    cached before has none, or none was cached, and [rt] is configured, the
    new cached token has [rt].  In both cases, once the new token has gone
    stale, the next refresh posts [grant_type=refresh_token] with [rt].
    When no refresh token was known at all, the new token has none
    either. *)
Theorem C6_refresh_token_carried_forward (w : World) (c0 : nat)
    (cs : list (N * nat)) (d : N) (dta : TokenData) :
  tokenPromise (this w) = None →
  suspended w = [] →
  fresh_token (token (this w)) (Date_now w) = None →
  refresh_token dta = None ∨ refresh_token dta = Some "" →
  let carried (rt : string) :=
    ∃ w' t',
      run (concurrent_calls (length (promises w)) c0 cs d (Ok dta)) w
        = Some w' ∧
      token (this w') = Some t' ∧
      Token.refreshToken t' = Some rt ∧
      ∀ d' c',
        (Token.expiresAt t' ≤ Date_now w' + Z.of_N d' + 60000)%Z →
        ∃ w'', run [Tick d'; Call c' GetToken] w' = Some w'' ∧
               posts w'' =
                 posts w' ++
                 [{| post_url := "/api/v1/access_token";
                     post_form := [("grant_type", "refresh_token");
                                   ("refresh_token", rt)];
                     post_basic :=
                       Config.clientId (config (this w)) +:+ ":" +:+
                       Config.clientSecret (config (this w)) |}] in
  (∀ t rt,
     token (this w) = Some t →
     Token.refreshToken t = Some rt → rt ≠ "" →
     carried rt) ∧
  (∀ rt,
     (∀ t, token (this w) = Some t →
           Token.refreshToken t = None ∨ Token.refreshToken t = Some "") →
     Config.refreshToken (config (this w)) = Some rt → rt ≠ "" →
     carried rt) ∧
  (∀ post,
     (∀ t, token (this w) = Some t →
           Token.refreshToken t = None ∨ Token.refreshToken t = Some "") →
     Config.refreshToken (config (this w)) = None ∨
     Config.refreshToken (config (this w)) = Some "" →
     requestToken_begin (config (this w)) (token (this w)) = Ok post →
     ∃ w' t',
       run (concurrent_calls (length (promises w)) c0 cs d (Ok dta)) w
         = Some w' ∧
       token (this w') = Some t' ∧
       (Token.refreshToken t' = None ∨ Token.refreshToken t' = Some "")).
Proof.
  intros Htp Hs Hfresh Hd%truthy_false_iff.
  assert (∀ rt,
            known_refreshToken (config (this w)) (token (this w)) = Some rt →
            rt ≠ "" →
            ∃ w' t',
              run (concurrent_calls (length (promises w)) c0 cs d (Ok dta)) w
                = Some w' ∧
              token (this w') = Some t' ∧
              Token.refreshToken t' = Some rt ∧
              ∀ d' c',
                (Token.expiresAt t' ≤ Date_now w' + Z.of_N d' + 60000)%Z →
                ∃ w'', run [Tick d'; Call c' GetToken] w' = Some w'' ∧
                       posts w'' =
                         posts w' ++
                         [{| post_url := "/api/v1/access_token";
                             post_form := [("grant_type", "refresh_token");
                                           ("refresh_token", rt)];
                             post_basic :=
                               Config.clientId (config (this w)) +:+ ":" +:+
                               Config.clientSecret (config (this w)) |}])
    as Hcarried.
  { intros rt Hk Hne.
    pose proof (requestToken_begin_refresh _ _ _ Hk Hne) as Hbegin.
    pose proof (run_concurrent_calls w c0 cs d (Ok dta) _ Htp Hs Hfresh Hbegin)
      as Hrun. simpl in Hrun.
    set (now' := (Date_now w + elapsed cs + Z.of_N d)%Z) in *.
    destruct (known_refreshToken_carried (config (this w)) (token (this w))
                now' dta Hd) as [Hnew Hknown].
    eexists _, _. split; [exact Hrun|]. split; [done|].
    split; [by rewrite Hnew|].
    intros d' c' Hstale. eexists. split; [reflexivity|].
    cbn [posts this token Date_now config] in *.
    apply getToken_call_posts;
      cbn [this token tokenPromise Date_now config];
      [done|by apply fresh_token_stale|].
    apply requestToken_begin_refresh; [|exact Hne].
    by rewrite Hknown. }
  simpl. split; [|split].
  - intros t rt Htok Hrt Hne. apply Hcarried; [|done].
    rewrite Htok. by apply known_refreshToken_cached.
  - intros rt Hnone Hrt Hne. apply Hcarried; [|done].
    by rewrite known_refreshToken_configured.
  - intros post Hnone Hcfg Hbegin.
    pose proof (run_concurrent_calls w c0 cs d (Ok dta) _ Htp Hs Hfresh Hbegin)
      as Hrun. simpl in Hrun.
    set (now' := (Date_now w + elapsed cs + Z.of_N d)%Z) in *.
    destruct (known_refreshToken_carried (config (this w)) (token (this w))
                now' dta Hd) as [Hnew _].
    eexists _, _. split; [exact Hrun|]. split; [done|].
    by rewrite Hnew, known_refreshToken_configured.
Qed.

Lemma C6_witness :
  (token (this world_expired) = Some token_AT2 ∧
   Token.refreshToken token_AT2 = Some "RT1" ∧
   Config.refreshToken (config (this world_expired)) = Some "RT0" ∧
   ∃ w' t',
     run (concurrent_calls 1 2 [(5%N, 3)] 7 (Ok data_AT1)) world_expired
       = Some w' ∧
     token (this w') = Some t' ∧
     Token.refreshToken t' = Some "RT1" ∧
     ∀ d' c',
       (Token.expiresAt t' ≤ Date_now w' + Z.of_N d' + 60000)%Z →
       ∃ w'', run [Tick d'; Call c' GetToken] w' = Some w'' ∧
              posts w'' =
                posts w' ++
                [{| post_url := "/api/v1/access_token";
                    post_form := [("grant_type", "refresh_token");
                                  ("refresh_token", "RT1")];
                    post_basic := "id:secret" |}]) ∧
  (token (this (init cfg_both 0)) = None ∧
   ∃ w' t',
     run (concurrent_calls 0 1 [(5%N, 2)] 7 (Ok data_AT1)) (init cfg_both 0)
       = Some w' ∧
     token (this w') = Some t' ∧
     Token.refreshToken t' = Some "RT0" ∧
     ∀ d' c',
       (Token.expiresAt t' ≤ Date_now w' + Z.of_N d' + 60000)%Z →
       ∃ w'', run [Tick d'; Call c' GetToken] w' = Some w'' ∧
              posts w'' =
                posts w' ++
                [{| post_url := "/api/v1/access_token";
                    post_form := [("grant_type", "refresh_token");
                                  ("refresh_token", "RT0")];
                    post_basic := "id:secret" |}]).
Proof.
  split.
  - split; [done|]. split; [done|]. split; [done|].
    destruct (C6_refresh_token_carried_forward world_expired 2 [(5%N, 3)] 7
                data_AT1 eq_refl eq_refl eq_refl (or_introl eq_refl))
      as [Hcached _].
    exact (Hcached token_AT2 "RT1" eq_refl eq_refl ltac:(discriminate)).
  - split; [done|].
    destruct (C6_refresh_token_carried_forward (init cfg_both 0) 1 [(5%N, 2)]
                7 data_AT1 eq_refl eq_refl eq_refl (or_introl eq_refl))
      as (_ & Hconfigured & _).
    apply (Hconfigured "RT0"); [intros t Ht; discriminate|done|discriminate].
Defined.

Lemma elapsed_nonneg cs : (0 ≤ elapsed cs)%Z.
Proof. induction cs as [|[d c] cs IH]; simpl; lia. Qed.

(** An integer below 2^53 in absolute value is a double. *)
Lemma double_of_exact z : (Z.abs z < 2 ^ 53)%Z → double_of z = Some z.
Proof.
  intros Hz. unfold double_of.
  assert (Z.log2 (Z.abs z) - 52 ≤ 0)%Z as Hs.
  { destruct (decide (Z.abs z = 0%Z)) as [->|Hnz]; [done|].
    assert (Z.log2 (Z.abs z) < 53)%Z; [|lia].
    apply Z.log2_lt_pow2; lia. }
  apply Z.leb_le in Hs. by rewrite Hs.
Qed.

(** Under the bound, line 110 computes the integer sum. *)
Lemma expiresAt_line110_exact now e :
  (0 ≤ now)%Z → (0 ≤ e)%Z → (now + e * 1000 < 2 ^ 53)%Z →
  expiresAt_line110 now e = Some (now + e * 1000)%Z.
Proof.
  intros Hnow He Hsum. unfold expiresAt_line110.
  rewrite double_of_exact by lia. apply double_of_exact. lia.
Qed.

(** Beyond the bound the sum is rounded: the millisecond is lost. *)
Lemma expiresAt_line110_rounds :
  expiresAt_line110 1 (2 ^ 53) = Some 9007199254740992000%Z ∧
  (1 + 2 ^ 53 * 1000 = 9007199254740992001)%Z.
Proof. by vm_compute. Qed.

(** C7: after a successful refresh the cached token's [expiresAt] is the
    time at which the response was processed plus the response's
    [expires_in] seconds, in milliseconds, and [expiresIn] is the response's
    [expires_in]; this is the number that line 110 computes on JavaScript
    numbers.  Times and [expires_in] are integers that are not negative,
    and the sum is below 2^53, where JavaScript numbers are exact. *)
Theorem C7_expiresAt_is_issue_time_plus_expires_in (w : World) (c0 : nat)
    (cs : list (N * nat)) (d : N) (dta : TokenData) (post : AuthPost) :
  tokenPromise (this w) = None →
  suspended w = [] →
  fresh_token (token (this w)) (Date_now w) = None →
  requestToken_begin (config (this w)) (token (this w)) = Ok post →
  (0 ≤ Date_now w)%Z →
  (0 ≤ expires_in dta)%Z →
  (Date_now w + elapsed cs + Z.of_N d + expires_in dta * 1000 < 2 ^ 53)%Z →
  ∃ w' t',
    run (concurrent_calls (length (promises w)) c0 cs d (Ok dta)) w = Some w' ∧
    token (this w') = Some t' ∧
    Date_now w' = (Date_now w + elapsed cs + Z.of_N d)%Z ∧
    Token.expiresIn t' = expires_in dta ∧
    Token.expiresAt t' = (Date_now w' + expires_in dta * 1000)%Z ∧
    Token.expiresAt t' = (Date_now w' + Token.expiresIn t' * 1000)%Z ∧
    expiresAt_line110 (Date_now w') (expires_in dta) = Some (Token.expiresAt t').
Proof.
  intros Htp Hs Hfresh Hbegin Hnow He Hsum.
  pose proof (run_concurrent_calls w c0 cs d (Ok dta) post Htp Hs Hfresh Hbegin)
    as Hrun. simpl in Hrun.
  eexists _, _. split; [exact Hrun|]. simpl. repeat split.
  pose proof (elapsed_nonneg cs).
  apply expiresAt_line110_exact; lia.
Qed.

Lemma C7_witness :
  ∃ w' t',
    run (concurrent_calls 0 1 [(5%N, 2)] 7 (Ok data_AT1))
      (init cfg_password 1700000000000) = Some w' ∧
    token (this w') = Some t' ∧
    Date_now w' = 1700000000012%Z ∧
    Token.expiresIn t' = 3600%Z ∧
    Token.expiresAt t' = (Date_now w' + 3600 * 1000)%Z ∧
    Token.expiresAt t' = (Date_now w' + Token.expiresIn t' * 1000)%Z ∧
    expiresAt_line110 (Date_now w') 3600 = Some (Token.expiresAt t').
Proof.
  apply (C7_expiresAt_is_issue_time_plus_expires_in
           (init cfg_password 1700000000000) 1 [(5%N, 2)] 7 data_AT1
           {| post_url := "/api/v1/access_token";
              post_form := [("grant_type", "password"); ("username", "alice");
                            ("password", "hunter2")];
              post_basic := "id:secret" |});
    [reflexivity..|done|done|done].
Defined.

(** ** [getApiClient] and [request] *)

Lemma remove_first_snoc c l : ∃ rest, remove_first c (l ++ [c]) = Some rest.
Proof.
  induction l as [|x l [rest IH]]; simpl.
  - rewrite Nat.eqb_refl. eauto.
  - destruct (c =? x); [eauto|]. rewrite IH. eauto.
Qed.


Lemma next_frame_singleton ps f r :
  ps !! awaits f = Some (Settled r) → next_frame ps [f] = Some (f, r, []).
Proof. intros H. simpl. by rewrite H. Qed.



(** ** De-duplication of concurrent calls *)

Lemma token_outcome_end cfg tok now r :
  token_outcome (requestToken_end cfg tok now r) =
  Result_map (fun d => TokenString (access_token d)) r.
Proof. by destruct r. Qed.

Lemma fresh_token_mono tok now now' :
  fresh_token tok now = None → (now ≤ now')%Z → fresh_token tok now' = None.
Proof.
  intros H Hle. replace now' with (now + Z.of_N (Z.to_N (now' - now)))%Z by lia.
  by apply fresh_token_later.
Qed.

(** C1 as stated fails when the refresh cannot produce a token.  A client
    without credentials: two concurrent calls, no post at all, and both
    calls are rejected.  A client whose endpoint answers with a failure:
    one post, and both calls are rejected with that failure; neither
    resolves to an access token. *)
Lemma C1_counterexample :
  (∃ w', run (concurrent_calls_thrown 1 [(0%N, 2)]) (init cfg_none 0)
         = Some w' ∧
         posts w' = [] ∧
         settled w' = [(1, Err ConfigurationError);
                       (2, Err ConfigurationError)]) ∧
  (∃ w', run (concurrent_calls 0 1 [(0%N, 2)] 5 (Err (AxiosError "401")))
           (init cfg_password 0) = Some w' ∧
         length (posts w') = 1 ∧
         settled w' = [(1, Err (AxiosError "401"));
                       (2, Err (AxiosError "401"))]).
Proof.
  split; eexists; (split; [vm_compute; reflexivity|]); by split.
Qed.

(** [requestToken] throws when nothing it looks at holds a credential. *)
Lemma requestToken_begin_throws cfg tok :
  (∀ t, tok = Some t →
        Token.refreshToken t = None ∨ Token.refreshToken t = Some "") →
  Config.refreshToken cfg = None ∨ Config.refreshToken cfg = Some "" →
  Config.username cfg = None ∨ Config.username cfg = Some "" ∨
  Config.password cfg = None ∨ Config.password cfg = Some "" →
  requestToken_begin cfg tok = Err ConfigurationError.
Proof.
  intros Htok Hrt%truthy_false_iff Hup.
  unfold requestToken_begin, grant_data.
  rewrite (known_refreshToken_configured _ _ Htok), Hrt.
  assert (truthy (Config.username cfg) && truthy (Config.password cfg)
          = false) as ->; [|done].
  destruct Hup as [Hu|[Hu|[Hp|Hp]]]; rewrite ?Hu, ?Hp; simpl;
    by rewrite ?andb_false_r.
Qed.

(** [requestToken] posts when one of the three places holds credentials. *)
Lemma requestToken_begin_posts cfg tok :
  (∃ t rt, tok = Some t ∧ Token.refreshToken t = Some rt ∧ rt ≠ "") ∨
  (∃ rt, Config.refreshToken cfg = Some rt ∧ rt ≠ "") ∨
  (∃ u pw, Config.username cfg = Some u ∧ u ≠ "" ∧
           Config.password cfg = Some pw ∧ pw ≠ "") →
  ∃ post, requestToken_begin cfg tok = Ok post.
Proof.
  intros Hcred.
  destruct (truthy (known_refreshToken cfg tok)) eqn:Hk.
  { apply truthy_Some in Hk as (s & Hs & Hne). eexists.
    by apply requestToken_begin_refresh. }
  unfold requestToken_begin, grant_data. rewrite Hk.
  unfold known_refreshToken, js_or in Hk.
  destruct Hcred
    as [(t & rt & -> & Hrt & Hne)|[(rt & Hrt & Hne)|(u & pw & Hu & Hune & Hp & Hpne)]].
  - simpl in Hk. rewrite Hrt, (truthy_nonempty _ Hne) in Hk.
    by rewrite (truthy_nonempty _ Hne) in Hk.
  - destruct (truthy (token_refreshToken tok)) eqn:E; [by rewrite E in Hk|].
    by rewrite Hrt, (truthy_nonempty _ Hne) in Hk.
  - rewrite Hu, Hp, (truthy_nonempty _ Hune), (truthy_nonempty _ Hpne).
    by eexists.
Qed.

(** C1, amended: on an idle client with no fresh token for which
    [requestToken] can determine a grant, [N >= 1] calls of [getToken]
    made before the authorization endpoint answers lead to exactly one
    post, and all [N] calls settle with the outcome of that one request:
    the same access token when the endpoint answers with one, the same
    error when it fails.  The in-flight handle is set in the very job that
    starts the refresh, and in every world the client can be in a pending
    refresh is the one the handle names, so that a call arriving meanwhile
    only suspends on it: a second refresh never starts while one is
    outstanding.  A grant can be determined when the cached token or the
    configuration holds a non-empty refresh token, or username and password
    are both non-empty; when none of this holds, the [N] calls lead to no
    post at all and are all rejected with the error of line 97. *)
Theorem C1_concurrent_calls_share_one_refresh :
  (∀ w c0 cs d r post,
     tokenPromise (this w) = None →
     suspended w = [] →
     fresh_token (token (this w)) (Date_now w) = None →
     requestToken_begin (config (this w)) (token (this w)) = Ok post →
     ∃ w', run (concurrent_calls (length (promises w)) c0 cs d r) w = Some w' ∧
           posts w' = posts w ++ [post] ∧
           settled w' =
             settled w ++
             map (fun c => (c, Result_map
                                 (fun dta => TokenString (access_token dta)) r))
                 (c0 :: cs.*2) ∧
           tokenPromise (this w') = None ∧
           suspended w' = []) ∧
  (∀ w c o,
     tokenPromise (this w) = None →
     fresh_token (token (this w)) (Date_now w) = None →
     tokenPromise (this (getToken_call c o w)) = Some (length (promises w))) ∧
  (∀ w p,
     reachable w →
     promises w !! p = Some Pending →
     tokenPromise (this w) = Some p ∧
     (∀ q, promises w !! q = Some Pending → q = p) ∧
     ∀ c o, getToken_call c o w =
            suspend {| caller := c; op := o; role := Attached; awaits := p |} w) ∧
  (∀ cfg tok,
     (∃ t rt, tok = Some t ∧ Token.refreshToken t = Some rt ∧ rt ≠ "") ∨
     (∃ rt, Config.refreshToken cfg = Some rt ∧ rt ≠ "") ∨
     (∃ u pw, Config.username cfg = Some u ∧ u ≠ "" ∧
              Config.password cfg = Some pw ∧ pw ≠ "") →
     ∃ post, requestToken_begin cfg tok = Ok post) ∧
  (∀ w c0 cs,
     tokenPromise (this w) = None →
     suspended w = [] →
     fresh_token (token (this w)) (Date_now w) = None →
     (∀ t, token (this w) = Some t →
           Token.refreshToken t = None ∨ Token.refreshToken t = Some "") →
     Config.refreshToken (config (this w)) = None ∨
     Config.refreshToken (config (this w)) = Some "" →
     Config.username (config (this w)) = None ∨
     Config.username (config (this w)) = Some "" ∨
     Config.password (config (this w)) = None ∨
     Config.password (config (this w)) = Some "" →
     ∃ w', run (concurrent_calls_thrown c0 cs) w = Some w' ∧
           posts w' = posts w ∧
           settled w' =
             settled w ++
             map (fun c => (c, Err ConfigurationError)) (c0 :: cs.*2) ∧
           tokenPromise (this w') = None ∧
           suspended w' = []).
Proof.
  split; [|split; [|split; [|split]]].
  - intros w c0 cs d r post Htp Hs Hfresh Hbegin.
    pose proof (run_concurrent_calls w c0 cs d r post Htp Hs Hfresh Hbegin)
      as Hrun. simpl in Hrun.
    eexists. split; [exact Hrun|]. simpl.
    by rewrite token_outcome_end.
  - intros w c o Htp Hfresh. unfold getToken_call. by rewrite Htp, Hfresh.
  - intros w p Hreach Hp.
    destruct (reachable_in_flight_inv w Hreach) as [_ Hpend].
    pose proof (Hpend p Hp) as Htp. split; [done|]. split.
    + intros q Hq. apply Hpend in Hq. rewrite Htp in Hq. by simplify_eq.
    + intros c o. unfold getToken_call. by rewrite Htp.
  - apply requestToken_begin_posts.
  - intros w c0 cs Htp Hs Hfresh Htok Hrt Hup.
    pose proof (requestToken_begin_throws _ _ Htok Hrt Hup) as Hbegin.
    pose proof (run_concurrent_calls_thrown w c0 cs _ Htp Hs Hfresh Hbegin)
      as Hrun.
    eexists. split; [exact Hrun|]. done.
Qed.

Lemma C1_witness :
  (∃ w', run (concurrent_calls 0 1 [(3%N, 2); (4%N, 3)] 5 (Ok data_AT1))
           (init cfg_password 0) = Some w' ∧
         posts w' =
           [{| post_url := "/api/v1/access_token";
               post_form := [("grant_type", "password"); ("username", "alice");
                             ("password", "hunter2")];
               post_basic := "id:secret" |}] ∧
         settled w' = [(1, Ok (TokenString "AT1")); (2, Ok (TokenString "AT1"));
                       (3, Ok (TokenString "AT1"))] ∧
         tokenPromise (this w') = None ∧
         suspended w' = []) ∧
  (∃ w', run (concurrent_calls_thrown 1 [(3%N, 2); (4%N, 3)]) (init cfg_half 0)
         = Some w' ∧
         posts w' = [] ∧
         settled w' = [(1, Err ConfigurationError); (2, Err ConfigurationError);
                       (3, Err ConfigurationError)] ∧
         tokenPromise (this w') = None ∧
         suspended w' = []).
Proof.
  destruct C1_concurrent_calls_share_one_refresh
    as (Hround & _ & _ & _ & Hthrown).
  split.
  - apply (Hround (init cfg_password 0) 1 [(3%N, 2); (4%N, 3)] 5%N
             (Ok data_AT1)); reflexivity.
  - apply (Hthrown (init cfg_half 0) 1 [(3%N, 2); (4%N, 3)]);
      [reflexivity..| | |].
    + intros t Ht. discriminate.
    + by left.
    + right. right. by left.
Defined.

(** ** A failed refresh *)

(** C3 as stated fails where it says that no token is cached after a
    failed refresh.  A client caches a token, the token expires, two
    concurrent calls share a refresh that fails: both receive the failure
    and the handle is cleared, but the expired token is still cached. *)
Lemma C3_counterexample :
  ∃ w', run (concurrent_calls 0 1 [] 0 (Ok data_AT2) ++ [Tick 4000000] ++
             concurrent_calls 1 2 [(0%N, 3)] 5 (Err (AxiosError "401")))
          (init cfg_both 0) = Some w' ∧
        settled w' = [(1, Ok (TokenString "AT2"));
                      (2, Err (AxiosError "401"));
                      (3, Err (AxiosError "401"))] ∧
        tokenPromise (this w') = None ∧
        token (this w') = Some token_AT2 ∧
        token (this w') ≠ None.
Proof.
  eexists. split; [vm_compute; reflexivity|].
  repeat split; try reflexivity. discriminate.
Qed.

(** C3, amended: when a refresh fails, whether the authorization endpoint
    fails or [requestToken] throws, every call waiting on the shared
    refresh receives that same failure, the in-flight handle is cleared and
    the cached token is left as it was before the refresh (absent if none
    was cached, the stale token otherwise); the next call of [getToken], at
    any later time, runs [requestToken] again: a new promise becomes the
    handle, and the request is posted again when a grant can be
    determined. *)
Theorem C3_failed_refresh_is_shared_and_retryable :
  (∀ w c0 cs d e post,
     tokenPromise (this w) = None →
     suspended w = [] →
     fresh_token (token (this w)) (Date_now w) = None →
     requestToken_begin (config (this w)) (token (this w)) = Ok post →
     ∃ w', run (concurrent_calls (length (promises w)) c0 cs d (Err e)) w
           = Some w' ∧
           settled w' = settled w ++ map (fun c => (c, Err e)) (c0 :: cs.*2) ∧
           tokenPromise (this w') = None ∧
           token (this w') = token (this w) ∧
           suspended w' = [] ∧
           ∀ d' c', ∃ w'',
             run [Tick d'; Call c' GetToken] w' = Some w'' ∧
             tokenPromise (this w'') = Some (length (promises w')) ∧
             promises w'' = promises w' ++ [Pending] ∧
             posts w'' = posts w' ++ [post]) ∧
  (∀ w c0 cs e,
     tokenPromise (this w) = None →
     suspended w = [] →
     fresh_token (token (this w)) (Date_now w) = None →
     requestToken_begin (config (this w)) (token (this w)) = Err e →
     ∃ w', run (concurrent_calls_thrown c0 cs) w = Some w' ∧
           settled w' = settled w ++ map (fun c => (c, Err e)) (c0 :: cs.*2) ∧
           tokenPromise (this w') = None ∧
           token (this w') = token (this w) ∧
           suspended w' = [] ∧
           ∀ d' c', ∃ w'',
             run [Tick d'; Call c' GetToken] w' = Some w'' ∧
             tokenPromise (this w'') = Some (length (promises w')) ∧
             promises w'' = promises w' ++ [Settled (Err e)] ∧
             posts w'' = posts w').
Proof.
  split.
  - intros w c0 cs d e post Htp Hs Hfresh Hbegin.
    pose proof (run_concurrent_calls w c0 cs d (Err e) post Htp Hs Hfresh
                  Hbegin) as Hrun. simpl in Hrun.
    eexists. split; [exact Hrun|]. simpl. repeat split; try done.
    intros d' c'. eexists. split; [reflexivity|]. simpl.
    unfold getToken_call. simpl.
    rewrite (fresh_token_mono _ _ _ Hfresh), Hbegin; [done|].
    pose proof (elapsed_nonneg cs). lia.
  - intros w c0 cs e Htp Hs Hfresh Hbegin.
    pose proof (run_concurrent_calls_thrown w c0 cs e Htp Hs Hfresh Hbegin)
      as Hrun.
    eexists. split; [exact Hrun|]. simpl. repeat split; try done.
    intros d' c'. eexists. split; [reflexivity|]. simpl.
    unfold getToken_call. simpl.
    rewrite (fresh_token_mono _ _ _ Hfresh), Hbegin.
    + simpl. by rewrite app_nil_r.
    + pose proof (elapsed_nonneg cs). lia.
Qed.

Lemma C3_witness :
  ∃ w', run (concurrent_calls (length (promises world_expired)) 2 [(0%N, 3)] 5
               (Err (AxiosError "401"))) world_expired = Some w' ∧
        settled w' = settled world_expired ++
                     [(2, Err (AxiosError "401")); (3, Err (AxiosError "401"))] ∧
        tokenPromise (this w') = None ∧
        token (this w') = Some token_AT2 ∧
        suspended w' = [] ∧
        ∀ d' c', ∃ w'',
          run [Tick d'; Call c' GetToken] w' = Some w'' ∧
          tokenPromise (this w'') = Some (length (promises w')) ∧
          promises w'' = promises w' ++ [Pending] ∧
          posts w'' =
            posts w' ++
            [{| post_url := "/api/v1/access_token";
                post_form := [("grant_type", "refresh_token");
                              ("refresh_token", "RT1")];
                post_basic := "id:secret" |}].
Proof.
  destruct C3_failed_refresh_is_shared_and_retryable as [Hround _].
  apply (Hround world_expired 2 [(0%N, 3)] 5%N (AxiosError "401")); reflexivity.
Defined.

(** * Further properties of the code *)

(** ** The password grant and the thrown error *)

Lemma grant_data_password cfg tok u pw :
  truthy (known_refreshToken cfg tok) = false →
  Config.username cfg = Some u → u ≠ "" →
  Config.password cfg = Some pw → pw ≠ "" →
  grant_data cfg tok =
  Ok [("grant_type", "password"); ("username", u); ("password", pw)].
Proof.
  intros Hk Hu Hune Hp Hpne. unfold grant_data.
  rewrite Hk, Hu, Hp, (truthy_nonempty _ Hune), (truthy_nonempty _ Hpne).
  done.
Qed.

(** X1: when no refresh token is known (none cached and none configured,
    the empty string counting as none) and username and password are both
    non-empty, a refresh posts [grant_type=password] with that username and
    password. *)
Theorem X1_password_grant_when_no_refresh_token (w : World) (c : nat)
    (o : Op) (u pw : string) :
  tokenPromise (this w) = None →
  fresh_token (token (this w)) (Date_now w) = None →
  truthy (known_refreshToken (config (this w)) (token (this w))) = false →
  Config.username (config (this w)) = Some u → u ≠ "" →
  Config.password (config (this w)) = Some pw → pw ≠ "" →
  posts (getToken_call c o w) =
  posts w ++
  [{| post_url := "/api/v1/access_token";
      post_form := [("grant_type", "password"); ("username", u);
                    ("password", pw)];
      post_basic := Config.clientId (config (this w)) +:+ ":" +:+
                    Config.clientSecret (config (this w)) |}].
Proof.
  intros Htp Hfresh Hk Hu Hune Hp Hpne.
  apply getToken_call_posts; [done..|].
  unfold requestToken_begin.
  by rewrite (grant_data_password _ _ _ _ Hk Hu Hune Hp Hpne).
Qed.

Lemma X1_witness :
  Config.refreshToken cfg_blank_refresh = Some "" ∧
  posts (getToken_call 1 GetToken (init cfg_blank_refresh 0)) =
  [{| post_url := "/api/v1/access_token";
      post_form := [("grant_type", "password"); ("username", "alice");
                    ("password", "hunter2")];
      post_basic := "id:secret" |}].
Proof.
  split; [reflexivity|].
  apply (X1_password_grant_when_no_refresh_token (init cfg_blank_refresh 0) 1
           GetToken "alice" "hunter2"); done.
Defined.

(** X2: [requestToken] throws before posting exactly when neither the
    cached token nor the configuration holds a non-empty refresh token and
    the username or the password is missing or empty; what it throws is
    always the error of line 97. *)
Theorem X2_requestToken_throws_iff (cfg : RedditAuthConfig)
    (tok : option RedditToken) :
  (∀ e, requestToken_begin cfg tok = Err e → e = ConfigurationError) ∧
  (requestToken_begin cfg tok = Err ConfigurationError ↔
   truthy (token_refreshToken tok) = false ∧
   truthy (Config.refreshToken cfg) = false ∧
   (truthy (Config.username cfg) = false ∨
    truthy (Config.password cfg) = false)).
Proof.
  unfold requestToken_begin, grant_data, known_refreshToken, js_or.
  destruct (truthy (token_refreshToken tok)) eqn:E1; rewrite ?E1; simpl.
  { split; [done|]. split; [done|]. by intros [? _]. }
  destruct (truthy (Config.refreshToken cfg)) eqn:E2; simpl.
  { split; [done|]. split; [done|]. by intros (_ & ? & _). }
  destruct (truthy (Config.username cfg)) eqn:E3; simpl.
  - destruct (truthy (Config.password cfg)) eqn:E4; simpl.
    + split; [done|]. split; [done|]. by intros (_ & _ & [?|?]).
    + split; [by intros e [= <-]|]. split; [auto|done].
  - split; [by intros e [= <-]|]. split; [auto|done].
Qed.

(** ** Staleness *)

(** X3: a cached token whose [expiresAt] is at most the current time plus
    60 seconds, the boundary included, is not handed out.  When no refresh
    is in flight the call starts one: a new promise becomes the handle, the
    call is suspended and not finished, the cached token stays in place,
    and exactly one request is posted unless [requestToken] throws. *)
Theorem X3_stale_token_starts_one_refresh (w : World) (c : nat) (o : Op)
    (t : RedditToken) :
  tokenPromise (this w) = None →
  token (this w) = Some t →
  (Token.expiresAt t ≤ Date_now w + 60000)%Z →
  let w' := getToken_call c o w in
  tokenPromise (this w') = Some (length (promises w)) ∧
  length (promises w') = S (length (promises w)) ∧
  suspended w' =
    suspended w ++
    [{| caller := c; op := o; role := Initiator;
        awaits := length (promises w) |}] ∧
  settled w' = settled w ∧
  token (this w') = Some t ∧
  length (posts w') =
    length (posts w) +
    match requestToken_begin (config (this w)) (Some t) with
    | Ok _ => 1
    | Err _ => 0
    end.
Proof.
  intros Htp Htok Hexp. simpl. unfold getToken_call.
  rewrite Htp, Htok, (fresh_token_stale _ _ Hexp). simpl.
  rewrite !length_app. simpl.
  destruct (requestToken_begin _ _); simpl; repeat split; lia.
Qed.

Lemma world_boundary_reachable : reachable world_boundary.
Proof.
  exists cfg_password, 0%Z,
    (concurrent_calls 0 1 [] 0 (Ok data_AT1) ++ [Tick 3540000]).
  reflexivity.
Qed.

Lemma X3_witness :
  (Token.expiresAt token_AT1 = Date_now world_boundary + 60000)%Z ∧
  let w' := getToken_call 2 GetToken world_boundary in
  tokenPromise (this w') = Some 1 ∧
  length (promises w') = 2 ∧
  suspended w' =
    [{| caller := 2; op := GetToken; role := Initiator; awaits := 1 |}] ∧
  settled w' = settled world_boundary ∧
  token (this w') = Some token_AT1 ∧
  length (posts w') = 2.
Proof.
  split; [reflexivity|].
  apply (X3_stale_token_starts_one_refresh world_boundary 2 GetToken
           token_AT1); [reflexivity|reflexivity|simpl; lia].
Defined.

(** ** A refresh and the calls after it *)

(** X4: when the response of a successful refresh brings a non-empty
    [refresh_token], the cached token carries it, whatever refresh token
    was cached or configured before, and once the new token has gone stale
    the next refresh posts [grant_type=refresh_token] with it. *)
Theorem X4_refresh_token_rotated (w : World) (c0 : nat)
    (cs : list (N * nat)) (d : N) (dta : TokenData) (post : AuthPost)
    (rt : string) :
  tokenPromise (this w) = None →
  suspended w = [] →
  fresh_token (token (this w)) (Date_now w) = None →
  requestToken_begin (config (this w)) (token (this w)) = Ok post →
  refresh_token dta = Some rt →
  rt ≠ "" →
  ∃ w' t',
    run (concurrent_calls (length (promises w)) c0 cs d (Ok dta)) w = Some w' ∧
    token (this w') = Some t' ∧
    Token.refreshToken t' = Some rt ∧
    ∀ d' c',
      fresh_token (Some t') (Date_now w' + Z.of_N d') = None →
      ∃ w'', run [Tick d'; Call c' GetToken] w' = Some w'' ∧
             posts w'' =
               posts w' ++
               [{| post_url := "/api/v1/access_token";
                   post_form := [("grant_type", "refresh_token");
                                 ("refresh_token", rt)];
                   post_basic := Config.clientId (config (this w)) +:+ ":" +:+
                                 Config.clientSecret (config (this w)) |}].
Proof.
  intros Htp Hs Hfresh Hbegin Hrt Hne.
  pose proof (run_concurrent_calls w c0 cs d (Ok dta) post Htp Hs Hfresh Hbegin)
    as Hrun. simpl in Hrun.
  assert (∀ now, Token.refreshToken
                   (make_token (config (this w)) (token (this w)) now dta)
                 = Some rt) as Hnew.
  { intros now. unfold make_token, js_or. simpl.
    destruct rt as [|a rt']; [done|]. by rewrite Hrt. }
  eexists _, _. split; [exact Hrun|]. split; [done|]. split; [apply Hnew|].
  intros d' c' Hstale. simpl in Hstale.
  eexists. split; [reflexivity|]. simpl.
  apply getToken_call_posts; simpl; [done|exact Hstale|].
  apply requestToken_begin_refresh; [|exact Hne].
  unfold known_refreshToken, js_or. simpl.
  destruct rt as [|a rt']; [done|]. unfold js_or. by rewrite Hrt.
Qed.

Lemma X4_witness :
  ∃ w' t',
    run (concurrent_calls 0 1 [(5%N, 2)] 7 (Ok data_AT2)) (init cfg_both 0)
      = Some w' ∧
    token (this w') = Some t' ∧
    Token.refreshToken t' = Some "RT1" ∧
    ∀ d' c',
      fresh_token (Some t') (Date_now w' + Z.of_N d') = None →
      ∃ w'', run [Tick d'; Call c' GetToken] w' = Some w'' ∧
             posts w'' =
               posts w' ++
               [{| post_url := "/api/v1/access_token";
                   post_form := [("grant_type", "refresh_token");
                                 ("refresh_token", "RT1")];
                   post_basic := "id:secret" |}].
Proof.
  apply (X4_refresh_token_rotated (init cfg_both 0) 1 [(5%N, 2)] 7 data_AT2
           {| post_url := "/api/v1/access_token";
              post_form := [("grant_type", "refresh_token");
                            ("refresh_token", "RT0")];
              post_basic := "id:secret" |} "RT1"); done.
Defined.

(** X5: after a successful refresh whose response was processed at time
    [T] with [expires_in = e], a call of [getToken] made [d'] milliseconds
    later is served from the cache, with the access token of that response
    and without a post, exactly while [d' + 60000 < e * 1000]; from then on
    a call starts a new refresh instead and is suspended.  A token that
    lives sixty seconds or less is therefore never served from the
    cache. *)
Theorem X5_cache_window_after_refresh (w : World) (c0 : nat)
    (cs : list (N * nat)) (d : N) (dta : TokenData) (post : AuthPost) :
  tokenPromise (this w) = None →
  suspended w = [] →
  fresh_token (token (this w)) (Date_now w) = None →
  requestToken_begin (config (this w)) (token (this w)) = Ok post →
  ∃ w',
    run (concurrent_calls (length (promises w)) c0 cs d (Ok dta)) w = Some w' ∧
    ∀ d' c', ∃ w'',
      run [Tick d'; Call c' GetToken] w' = Some w'' ∧
      ((Z.of_N d' + 60000 < expires_in dta * 1000)%Z →
       settled w'' =
         settled w' ++ [(c', Ok (TokenString (access_token dta)))] ∧
       posts w'' = posts w' ∧ this w'' = this w') ∧
      ((expires_in dta * 1000 ≤ Z.of_N d' + 60000)%Z →
       settled w'' = settled w' ∧
       tokenPromise (this w'') = Some (length (promises w')) ∧
       suspended w'' =
         [{| caller := c'; op := GetToken; role := Initiator;
             awaits := length (promises w') |}]).
Proof.
  intros Htp Hs Hfresh Hbegin.
  pose proof (run_concurrent_calls w c0 cs d (Ok dta) post Htp Hs Hfresh Hbegin)
    as Hrun. simpl in Hrun.
  eexists. split; [exact Hrun|].
  intros d' c'. eexists. split; [reflexivity|].
  unfold getToken_call. simpl. split.
  - intros Hin.
    destruct (_ <? _)%Z eqn:E; [done|]. apply Z.ltb_ge in E. lia.
  - intros Hout.
    destruct (_ <? _)%Z eqn:E; [|done]. apply Z.ltb_lt in E. lia.
Qed.

Lemma X5_witness :
  ∃ w',
    run (concurrent_calls 0 1 [] 0 (Ok data_AT1)) (init cfg_password 0)
      = Some w' ∧
    ∀ d' c', ∃ w'',
      run [Tick d'; Call c' GetToken] w' = Some w'' ∧
      ((Z.of_N d' + 60000 < 3600 * 1000)%Z →
       settled w'' = settled w' ++ [(c', Ok (TokenString "AT1"))] ∧
       posts w'' = posts w' ∧ this w'' = this w') ∧
      ((3600 * 1000 ≤ Z.of_N d' + 60000)%Z →
       settled w'' = settled w' ∧
       tokenPromise (this w'') = Some (length (promises w')) ∧
       suspended w'' =
         [{| caller := c'; op := GetToken; role := Initiator;
             awaits := length (promises w') |}]).
Proof.
  apply (X5_cache_window_after_refresh (init cfg_password 0) 1 [] 0 data_AT1
           {| post_url := "/api/v1/access_token";
              post_form := [("grant_type", "password"); ("username", "alice");
                            ("password", "hunter2")];
              post_basic := "id:secret" |}); reflexivity.
Defined.

(** The grant can still be determined after any response: a refresh token
    that is known stays known or is replaced, and username and password do
    not change. *)
Lemma grant_data_after_refresh cfg tok now dta d :
  grant_data cfg tok = Ok d →
  ∃ d', grant_data cfg (Some (make_token cfg tok now dta)) = Ok d'.
Proof.
  unfold grant_data, known_refreshToken, make_token, js_or. simpl.
  destruct (truthy (refresh_token dta)) eqn:E0; rewrite ?E0;
    [by eexists|].
  destruct (truthy (token_refreshToken tok)) eqn:E1; rewrite ?E1;
    [by eexists|].
  destruct (truthy (Config.refreshToken cfg)) eqn:E2; rewrite ?E2;
    [by eexists|].
  rewrite ?E2.
  destruct (truthy (Config.username cfg) && truthy (Config.password cfg));
    [by eexists|done].
Qed.

(** ** While a refresh is in flight *)

(** X6: while the in-flight handle is set, calls of any of the three
    methods and the passing of time change nothing but the queue of
    suspended calls: nothing is posted, no call finishes, the cached token
    and the handle stay as they are, and every caller is suspended on the
    refresh in flight.  There is no timeout: only the answer to the
    refresh lets these calls go on. *)
Theorem X6_calls_wait_while_refresh_in_flight (es : list Event) (w : World)
    (p : nat) :
  forallb is_tick_or_call es = true →
  tokenPromise (this w) = Some p →
  ∃ w', run es w = Some w' ∧
        this w' = this w ∧
        promises w' = promises w ∧
        posts w' = posts w ∧
        settled w' = settled w ∧
        api_requests w' = api_requests w ∧
        suspended w' = suspended w ++ attached_of p es.
Proof.
  revert w. induction es as [|e es IH]; intros w Hes Hp; simpl in Hes.
  - exists w. simpl. by rewrite app_nil_r.
  - apply andb_prop in Hes as [He Hes]. destruct e; try done; simpl.
    + edestruct IH as (w' & Hrun & H1 & H2 & H3 & H4 & H5 & H6);
        [exact Hes| |exists w'; split; [exact Hrun|]]; [exact Hp|].
      simpl in *. by rewrite H1, H2, H3, H4, H5, H6.
    + unfold getToken_call. rewrite Hp.
      edestruct IH as (w' & Hrun & H1 & H2 & H3 & H4 & H5 & H6);
        [exact Hes| |exists w'; split; [exact Hrun|]]; [exact Hp|].
      simpl in *. rewrite H1, H2, H3, H4, H5, H6. by rewrite <- app_assoc.
Qed.

Lemma X6_witness :
  ∃ w', run [Call 2 GetToken; Tick 86400000;
             Call 3 (Request "/api/v1/me" []); Call 4 GetApiClient]
          (getToken_call 1 GetToken (init cfg_password 0)) = Some w' ∧
        this w' = this (getToken_call 1 GetToken (init cfg_password 0)) ∧
        promises w' = [Pending] ∧
        posts w' = posts (getToken_call 1 GetToken (init cfg_password 0)) ∧
        settled w' = [] ∧
        api_requests w' = [] ∧
        suspended w' =
          [{| caller := 1; op := GetToken; role := Initiator; awaits := 0 |};
           {| caller := 2; op := GetToken; role := Attached; awaits := 0 |};
           {| caller := 3; op := Request "/api/v1/me" []; role := Attached;
              awaits := 0 |};
           {| caller := 4; op := GetApiClient; role := Attached;
              awaits := 0 |}].
Proof.
  apply (X6_calls_wait_while_refresh_in_flight
           [Call 2 GetToken; Tick 86400000;
            Call 3 (Request "/api/v1/me" []); Call 4 GetApiClient]
           (getToken_call 1 GetToken (init cfg_password 0)) 0); reflexivity.
Defined.

(** ** Once every refresh has settled *)

Lemma reachable_run es w w' : reachable w → run es w = Some w' → reachable w'.
Proof.
  intros (cfg & now & es0 & Hrun0) Hrun. exists cfg, now, (es0 ++ es).
  by rewrite run_app, Hrun0.
Qed.

Lemma ids_inv_step e w w' : ids_inv w → step e w = Some w' → ids_inv w'.
Proof.
  unfold ids_inv. intros [Hh Hf] Hstep. destruct e; simpl in Hstep.
  - by simplify_eq.
  - simplify_eq. unfold getToken_call.
    destruct (tokenPromise (this w)) as [q|] eqn:Hq; simpl.
    + rewrite Hq. split; [done|]. apply Forall_app. split; [done|].
      apply Forall_singleton. simpl. by apply Hh.
    + destruct (fresh_token _ _); simpl.
      * by rewrite continue_this, continue_suspended, continue_promises, Hq.
      * rewrite length_app. simpl. split.
        -- intros q [= <-]. lia.
        -- apply Forall_app. split.
           ++ eapply Forall_impl; [exact Hf|]. simpl. intros f Hlt. lia.
           ++ apply Forall_singleton. simpl. lia.
  - destruct (promises w !! p) as [[|]|]; simplify_eq; simpl.
    by rewrite length_insert.
  - destruct (next_frame _ _) as [[[f r] rest]|] eqn:Hnext; [|done].
    destruct (next_frame_split _ _ _ _ _ Hnext) as (l1 & l2 & Hfs & -> & _).
    rewrite Hfs in Hf. apply Forall_app in Hf as [Hf1 Hf2].
    apply Forall_cons in Hf2 as [_ Hf2].
    assert (Forall (fun f => awaits f < length (promises w)) (l1 ++ l2))
      as Hrest by (by apply Forall_app).
    destruct (role f), r; simpl in Hstep; simplify_eq;
      rewrite continue_this, continue_suspended, continue_promises; simpl;
      by split.
  - destruct (remove_first _ _); by simplify_eq.
Qed.

Lemma reachable_ids_inv w : reachable w → ids_inv w.
Proof.
  apply reachable_ind'.
  - intros cfg now. split; [done|]. apply Forall_nil_2.
  - intros e w0 w1. apply ids_inv_step.
Qed.

(** Frames whose promises have all settled resume one after the other until
    none is left; no promise is created or settled meanwhile and nothing is
    posted. *)
Lemma run_resume_all fs : ∀ w,
  suspended w = fs →
  Forall (fun f => ∃ r, promises w !! awaits f = Some (Settled r)) fs →
  ∃ w', run (replicate (length fs) Resume) w = Some w' ∧
        suspended w' = [] ∧ promises w' = promises w ∧ posts w' = posts w.
Proof.
  induction fs as [|f fs IH]; intros w Hs Hall; simpl.
  - by exists w.
  - apply Forall_cons in Hall as [[r Hr] Hall].
    rewrite Hs. simpl. rewrite Hr.
    destruct (getToken_resume (role f) r (this w)) as [cl out].
    edestruct IH as (w' & Hrun & H1 & H2 & H3);
      [| |exists w'; split; [exact Hrun|]].
    + by rewrite continue_suspended.
    + by rewrite continue_promises.
    + by rewrite H1, H2, H3, continue_promises, continue_posts.
Qed.

(** X7: in every world the client can be in, once no refresh is pending,
    resuming the suspended calls one after the other empties the queue and
    leaves the in-flight handle cleared, without any post: the handle never
    stays set after its refresh has settled, so the client cannot lock up
    on a finished refresh. *)
Theorem X7_settled_refresh_drains_to_idle (w : World) :
  reachable w →
  (∀ q, promises w !! q ≠ Some Pending) →
  ∃ w', run (replicate (length (suspended w)) Resume) w = Some w' ∧
        suspended w' = [] ∧
        tokenPromise (this w') = None ∧
        posts w' = posts w.
Proof.
  intros Hreach Hnone.
  destruct (reachable_ids_inv w Hreach) as [_ Hids].
  destruct (run_resume_all (suspended w) w eq_refl) as (w' & Hrun & Hs & _ & Hp).
  { eapply Forall_impl; [exact Hids|]. simpl. intros f Hlt.
    destruct (lookup_lt_is_Some_2 _ _ Hlt) as [[|r] HP]; [|by eexists].
    by apply Hnone in HP. }
  exists w'. split; [exact Hrun|]. split; [exact Hs|]. split; [|exact Hp].
  destruct (reachable_in_flight_inv w' (reachable_run _ _ _ Hreach Hrun))
    as [Hini _].
  rewrite Hs in Hini. simpl in Hini.
  by destruct (tokenPromise (this w')).
Qed.

Lemma world_answered_reachable : reachable world_answered.
Proof.
  exists cfg_password, 0%Z,
    [Call 1 GetToken; Tick 5; Call 2 GetToken;
     Call 3 (Request "/api/v1/me" []); Tick 7;
     Respond 0 (Err (AxiosError "401"))].
  reflexivity.
Qed.

Lemma X7_witness :
  ∃ w', run (replicate 3 Resume) world_answered = Some w' ∧
        suspended w' = [] ∧
        tokenPromise (this w') = None ∧
        posts w' = posts world_answered.
Proof.
  apply (X7_settled_refresh_drains_to_idle world_answered).
  - exact world_answered_reachable.
  - intros [|q]; simpl; [done|]. by destruct q.
Defined.

(** ** What is posted, and where handed-out tokens come from *)








Lemma elem_of_insert_pending (ps : list Promise) (p : nat) (x y : Promise) :
  ps !! p = Some Pending → x ≠ Pending → x ∈ ps → x ∈ <[p := y]> ps.
Proof.
  intros Hp Hx [i Hi]%list_elem_of_lookup. apply list_elem_of_lookup.
  exists i. rewrite list_lookup_insert_ne; [done|].
  intros ->. rewrite Hp in Hi. by simplify_eq.
Qed.

Lemma provenance_inv_step e w w' :
  provenance_inv w → step e w = Some w' → provenance_inv w'.
Proof.
  unfold provenance_inv. intros [Htok Hset] Hstep. destruct e; simpl in Hstep.
  - by simplify_eq.
  - simplify_eq. unfold getToken_call.
    destruct (tokenPromise (this w)) as [q|]; [done|].
    destruct (fresh_token _ _) as [t|] eqn:Hfresh; simpl.
    + rewrite continue_this, continue_promises. split; [done|].
      assert (token (this w) = Some t) as Ht.
      { unfold fresh_token in Hfresh. destruct (token (this w)); [|done].
        by destruct (_ <? _)%Z; simplify_eq. }
      intros c' s Hin.
      assert ((c', Ok (TokenString s)) ∈ settled w ∨
              s = Token.accessToken t) as [Hold| ->].
      { destruct o; simpl in Hin.
        - apply elem_of_app in Hin as [?|Hin%list_elem_of_singleton]; [by left|].
          right. by simplify_eq.
        - apply elem_of_app in Hin as [?|Hin%list_elem_of_singleton]; [by left|].
          by simplify_eq.
        - by left. }
      * by apply (Hset c').
      * exists t. split; [by apply Htok|done].
    + split.
      * intros t Ht. apply elem_of_app. left. by apply Htok.
      * intros c' s Hin. destruct (Hset _ _ Hin) as (t & Ht & Hs).
        exists t. split; [|done]. apply elem_of_app. by left.
  - destruct (promises w !! p) as [[|]|] eqn:Hp; simplify_eq; simpl. split.
    + intros t Ht. by eapply elem_of_insert_pending; [| |apply Htok].
    + intros c s Hin. destruct (Hset _ _ Hin) as (t & Ht & Hs).
      exists t. split; [|done]. by eapply elem_of_insert_pending.
  - destruct (next_frame _ _) as [[[f r] rest]|] eqn:Hnext; [|done].
    destruct (next_frame_split _ _ _ _ _ Hnext) as (l1 & l2 & _ & -> & Hf).
    apply list_elem_of_lookup_2 in Hf.
    assert (∀ cl out,
              getToken_resume (role f) r (this w) = (cl, out) →
              (∀ t, token cl = Some t → Settled (Ok t) ∈ promises w) ∧
              (∀ s, out = Ok s →
                    ∃ t, Settled (Ok t) ∈ promises w ∧
                         Token.accessToken t = s)) as Hres.
    { intros cl out Hr. destruct (role f), r as [t|e]; simpl in Hr;
        simplify_eq; simpl; (split; [try done|]);
        try (intros s [= <-]; by exists t); try done.
      intros t' [= <-]. done. }
    destruct (getToken_resume (role f) r (this w)) as [cl out] eqn:Hr.
    destruct (Hres _ _ eq_refl) as [Hcl Hout]. simplify_eq.
    rewrite continue_this, continue_promises. simpl. split; [done|].
    intros c' s Hin.
    assert ((c', Ok (TokenString s)) ∈ settled w ∨ out = Ok s) as [Hold|Hnew].
    { destruct (op f); simpl in Hin.
      - apply elem_of_app in Hin as [?|Hin%list_elem_of_singleton]; [by left|].
        right. destruct out; simpl in Hin; by simplify_eq.
      - apply elem_of_app in Hin as [?|Hin%list_elem_of_singleton]; [by left|].
        destruct out; simpl in Hin; by simplify_eq.
      - destruct out; simpl in Hin; [by left|].
        apply elem_of_app in Hin as [?|Hin%list_elem_of_singleton]; [by left|].
        by simplify_eq. }
    + by apply (Hset c').
    + by apply Hout.
  - destruct (remove_first _ _); simplify_eq; simpl. split; [done|].
    intros c' s [Hin|Hin%list_elem_of_singleton]%elem_of_app;
      [by apply (Hset c')|].
    destruct r; simpl in Hin; by simplify_eq.
Qed.

(** X9: in every world the client can be in, the cached token is the token
    of a refresh that was fulfilled, and so is every access token that
    [getToken] has handed to a caller: the client never hands out a token
    the authorization endpoint's response did not produce. *)
Theorem X9_tokens_come_from_fulfilled_refreshes (w : World) :
  reachable w →
  (∀ t, token (this w) = Some t → Settled (Ok t) ∈ promises w) ∧
  (∀ c s, (c, Ok (TokenString s)) ∈ settled w →
          ∃ t, Settled (Ok t) ∈ promises w ∧ Token.accessToken t = s).
Proof.
  revert w. apply (reachable_ind' provenance_inv).
  - intros cfg now. split; [done|]. intros c s Hin.
    by apply elem_of_nil in Hin.
  - intros e w0 w1. apply provenance_inv_step.
Qed.

Lemma X9_witness :
  (∀ t, token (this world_cached) = Some t →
        Settled (Ok t) ∈ promises world_cached) ∧
  (∀ c s, (c, Ok (TokenString s)) ∈ settled world_cached →
          ∃ t, Settled (Ok t) ∈ promises world_cached ∧
               Token.accessToken t = s).
Proof.
  apply (X9_tokens_come_from_fulfilled_refreshes world_cached).
  exact world_cached_reachable.
Defined.

(** ** The argument of [apiClient.request] *)

Lemma Obj_get_set_eq k v o : Obj_get k (Obj_set k v o) = Some v.
Proof.
  induction o as [|[k' v'] o IH]; simpl.
  - by rewrite String.eqb_refl.
  - destruct (String.eqb k k') eqn:E; simpl.
    + by rewrite String.eqb_refl.
    + by rewrite E.
Qed.

Lemma Obj_get_set_ne k k' v o :
  k ≠ k' → Obj_get k' (Obj_set k v o) = Obj_get k' o.
Proof.
  intros Hne. induction o as [|[k0 v0] o IH]; simpl.
  - by apply not_eq_sym, String.eqb_neq in Hne as ->.
  - destruct (String.eqb k k0) eqn:E; simpl.
    + apply String.eqb_eq in E as <-.
      by apply not_eq_sym, String.eqb_neq in Hne as ->.
    + by rewrite IH.
Qed.

Lemma Obj_get_app k o1 o2 :
  Obj_get k (o1 ++ o2) =
  match Obj_get k o1 with
  | Some v => Some v
  | None => Obj_get k o2
  end.
Proof.
  induction o1 as [|[k' v'] o1 IH]; simpl; [done|].
  by destruct (String.eqb k k').
Qed.

(** After a spread a key has the value of its last binding in the object
    that was spread, and otherwise the value it had before. *)
Lemma Obj_get_spread k more : ∀ base,
  Obj_get k (Obj_spread base more) =
  match Obj_get k (reverse more) with
  | Some v => Some v
  | None => Obj_get k base
  end.
Proof.
  unfold Obj_spread.
  induction more as [|[k0 v0] more IH]; intros base; simpl; [done|].
  rewrite IH, reverse_cons, Obj_get_app. simpl.
  destruct (Obj_get k (reverse more)); [done|].
  destruct (String.eqb k k0) eqn:E.
  - apply String.eqb_eq in E as ->. apply Obj_get_set_eq.
  - apply String.eqb_neq in E. by apply Obj_get_set_ne.
Qed.

(** X10: in the argument [{ url, ...options }] that [request] passes to
    [apiClient.request], a [url] property of [options] replaces the [url]
    argument (the last binding counts); without one the argument is used.
    Every other property is the one [options] gives, and none is added. *)
Theorem X10_options_url_overrides_argument (url : string) (options : Obj) :
  Obj_get "url" (request_config url options) =
    Some (default url (Obj_get "url" (reverse options))) ∧
  ∀ k, k ≠ "url" →
       Obj_get k (request_config url options) = Obj_get k (reverse options).
Proof.
  unfold request_config. split.
  - rewrite Obj_get_spread. by destruct (Obj_get "url" (reverse options)).
  - intros k Hk. rewrite Obj_get_spread.
    destruct (Obj_get k (reverse options)); [done|]. simpl.
    by apply String.eqb_neq in Hk as ->.
Qed.

(** ** The constructor *)

Lemma env_or_truthy env name fallback s :
  env !! name = Some s → s ≠ "" → env_or env name fallback = s.
Proof.
  intros Hs Hne. unfold env_or, js_or.
  by rewrite Hs, (truthy_nonempty _ Hne).
Qed.

Lemma env_or_falsy env name fallback :
  truthy (env !! name) = false → env_or env name fallback = fallback.
Proof. intros H. unfold env_or, js_or. by rewrite H. Qed.

(** X11: a client constructed without a configuration object takes its
    user agent from [REDDIT_USER_AGENT] when that is set and not empty and
    uses [MyRedditApp/1.0.0] otherwise, so its user agent is never empty; a
    client id or secret that is not set, or empty, becomes the empty
    string.  The instance that posts the refresh and every instance built
    by [getApiClient] send that same user agent.  A configuration object
    that is passed is used as it is and the environment is not read. *)
Theorem X11_constructor_defaults (env : gmap string string) :
  let cfg := constructor_config None env in
  Config.userAgent cfg ≠ "" ∧
  (∀ s, env !! "REDDIT_USER_AGENT" = Some s → s ≠ "" →
        Config.userAgent cfg = s) ∧
  (truthy (env !! "REDDIT_USER_AGENT") = false →
   Config.userAgent cfg = "MyRedditApp/1.0.0") ∧
  (truthy (env !! "REDDIT_CLIENT_ID") = false → Config.clientId cfg = "") ∧
  (truthy (env !! "REDDIT_CLIENT_SECRET") = false →
   Config.clientSecret cfg = "") ∧
  (∀ tok, Obj_get "User-Agent" (headers (auth_instance cfg)) =
          Obj_get "User-Agent" (headers (bearer_client cfg tok)) ∧
          Obj_get "User-Agent" (headers (auth_instance cfg)) =
          Some (Config.userAgent cfg)) ∧
  (∀ c, constructor_config (Some c) env = c).
Proof.
  simpl. repeat split.
  - unfold env_or, js_or.
    destruct (truthy (env !! "REDDIT_USER_AGENT")) eqn:E; [|done].
    apply truthy_Some in E as (s & -> & Hs). done.
  - intros s Hs Hne. by apply env_or_truthy.
  - apply env_or_falsy.
  - apply env_or_falsy.
  - apply env_or_falsy.
Qed.

Lemma X11_witness :
  let cfg := constructor_config None env_blank in
  Config.userAgent cfg ≠ "" ∧
  (∀ s, env_blank !! "REDDIT_USER_AGENT" = Some s → s ≠ "" →
        Config.userAgent cfg = s) ∧
  (truthy (env_blank !! "REDDIT_USER_AGENT") = false →
   Config.userAgent cfg = "MyRedditApp/1.0.0") ∧
  (truthy (env_blank !! "REDDIT_CLIENT_ID") = false →
   Config.clientId cfg = "") ∧
  (truthy (env_blank !! "REDDIT_CLIENT_SECRET") = false →
   Config.clientSecret cfg = "") ∧
  (∀ tok, Obj_get "User-Agent" (headers (auth_instance cfg)) =
          Obj_get "User-Agent" (headers (bearer_client cfg tok)) ∧
          Obj_get "User-Agent" (headers (auth_instance cfg)) =
          Some (Config.userAgent cfg)) ∧
  (∀ c, constructor_config (Some c) env_blank = c).
Proof. exact (X11_constructor_defaults env_blank). Defined.

(** ** [main]: a client built from the environment *)

(** X12: what the call of [getToken] in [main] does, by the environment.
    With a non-empty [REDDIT_REFRESH_TOKEN] it posts
    [grant_type=refresh_token] with it; without one (not set, or empty) and
    with non-empty [REDDIT_USERNAME] and [REDDIT_PASSWORD] it posts
    [grant_type=password]; otherwise it posts nothing and the call is
    rejected with the error of line 97.  A client that is given a
    configuration object without credentials is rejected in the same way
    even when the environment holds credentials. *)
Theorem X12_main_grant_by_environment (env : gmap string string) (now : Z) :
  (∀ rt, env !! "REDDIT_REFRESH_TOKEN" = Some rt → rt ≠ "" →
         posts (main env now) =
         [{| post_url := "/api/v1/access_token";
             post_form := [("grant_type", "refresh_token");
                           ("refresh_token", rt)];
             post_basic := env_or env "REDDIT_CLIENT_ID" "" +:+ ":" +:+
                           env_or env "REDDIT_CLIENT_SECRET" "" |}]) ∧
  (truthy (env !! "REDDIT_REFRESH_TOKEN") = false →
   (∀ u pw, env !! "REDDIT_USERNAME" = Some u → u ≠ "" →
            env !! "REDDIT_PASSWORD" = Some pw → pw ≠ "" →
            posts (main env now) =
            [{| post_url := "/api/v1/access_token";
                post_form := [("grant_type", "password"); ("username", u);
                              ("password", pw)];
                post_basic := env_or env "REDDIT_CLIENT_ID" "" +:+ ":" +:+
                              env_or env "REDDIT_CLIENT_SECRET" "" |}]) ∧
   (truthy (env !! "REDDIT_USERNAME") && truthy (env !! "REDDIT_PASSWORD")
    = false →
    posts (main env now) = [] ∧
    ∃ w', run [Resume] (main env now) = Some w' ∧
          settled w' = [(0, Err ConfigurationError)] ∧
          posts w' = [])) ∧
  (∀ c, truthy (Config.refreshToken c) = false →
        truthy (Config.username c) && truthy (Config.password c) = false →
        ∃ w', run [Call 0 GetToken; Resume] (new_RedditClient (Some c) env now)
              = Some w' ∧
              settled w' = [(0, Err ConfigurationError)] ∧
              posts w' = []).
Proof.
  split; [|split].
  - intros rt Hrt Hne. unfold main, new_RedditClient.
    erewrite getToken_call_posts; [done..|].
    apply requestToken_begin_refresh; [|exact Hne].
    unfold known_refreshToken, js_or. simpl. by rewrite Hrt.
  - intros Hrt. split.
    + intros u pw Hu Hune Hp Hpne. unfold main, new_RedditClient.
      erewrite getToken_call_posts; [done..|].
      unfold requestToken_begin.
      erewrite grant_data_password; [done| |done..].
      unfold known_refreshToken, js_or. simpl. by rewrite Hrt.
    + intros Hup. unfold main, new_RedditClient, getToken_call.
      cbn [init this tokenPromise token config Date_now fresh_token].
      unfold requestToken_begin.
      rewrite (grant_data_no_credentials (constructor_config None env) Hrt Hup).
      simpl. split; [done|]. eexists. by split.
  - intros c Hrt Hup. unfold new_RedditClient. cbn [run step].
    unfold getToken_call.
    cbn [init this tokenPromise token config Date_now fresh_token
         constructor_config].
    unfold requestToken_begin.
    rewrite (grant_data_no_credentials c Hrt Hup). simpl.
    eexists. by split.
Qed.

Lemma X12_witness :
  posts (main env_full 0) =
    [{| post_url := "/api/v1/access_token";
        post_form := [("grant_type", "refresh_token");
                      ("refresh_token", "RT0")];
        post_basic := "id:secret" |}] ∧
  posts (main env_blank 0) =
    [{| post_url := "/api/v1/access_token";
        post_form := [("grant_type", "password"); ("username", "alice");
                      ("password", "hunter2")];
        post_basic := "id:secret" |}] ∧
  ∃ w', run [Call 0 GetToken; Resume]
          (new_RedditClient (Some cfg_none) env_full 0) = Some w' ∧
        settled w' = [(0, Err ConfigurationError)] ∧
        posts w' = [].
Proof.
  destruct (X12_main_grant_by_environment env_full 0) as (Hfull & _ & Hcfg).
  destruct (X12_main_grant_by_environment env_blank 0) as (_ & Hblank & _).
  split; [|split].
  - exact (Hfull "RT0" eq_refl ltac:(discriminate)).
  - destruct (Hblank eq_refl) as [Hpw _].
    exact (Hpw "alice" "hunter2" eq_refl ltac:(discriminate) eq_refl
             ltac:(discriminate)).
  - exact (Hcfg cfg_none eq_refl eq_refl).
Defined.

(** ** A request that fails at the transport *)

Lemma getToken_call_fresh c o w t :
  tokenPromise (this w) = None →
  fresh_token (token (this w)) (Date_now w) = Some t →
  getToken_call c o w = continue c o (Ok (Token.accessToken t)) w.
Proof. intros Htp Hf. unfold getToken_call. by rewrite Htp, Hf. Qed.

(** X13: a call of [request] on a client whose cached token is fresh posts
    nothing to the authorization endpoint, and when the transport then
    fails the caller receives that error while the client's fields stay
    as they are: a later call of [getToken], made while the token is still
    fresh, is served the same cached token without any post. *)
Theorem X13_transport_failure_keeps_cached_token (w : World) (c c' : nat)
    (url : string) (options : Obj) (e : Error) (d : N) (t : RedditToken) :
  tokenPromise (this w) = None →
  token (this w) = Some t →
  (Token.expiresAt t > Date_now w + Z.of_N d + 60000)%Z →
  ∃ w', run [Call c (Request url options); ApiRespond c (Err e); Tick d;
             Call c' GetToken] w = Some w' ∧
        settled w' =
          settled w ++
          [(c, Err e); (c', Ok (TokenString (Token.accessToken t)))] ∧
        posts w' = posts w ∧
        this w' = this w ∧
        api_requests w' =
          api_requests w ++
          [(c, bearer_client (config (this w)) (Token.accessToken t),
            request_config url options)].
Proof.
  intros Htp Htok Hexp.
  assert (fresh_token (token (this w)) (Date_now w) = Some t) as Hf1
    by (apply fresh_token_Some; [done|lia]).
  assert (fresh_token (token (this w)) (Date_now w + Z.of_N d) = Some t)
    as Hf2 by (by apply fresh_token_Some).
  destruct (remove_first_snoc c (api_waiting w)) as [rest Hrest].
  cbn [run step]. rewrite (getToken_call_fresh _ _ _ _ Htp Hf1). simpl.
  rewrite Hrest.
  erewrite getToken_call_fresh; [|simpl; exact Htp|simpl; exact Hf2].
  eexists. split; [reflexivity|]. simpl.
  by rewrite <- app_assoc.
Qed.

Lemma X13_witness :
  ∃ w', run [Call 2 (Request "/api/v1/me" []);
             ApiRespond 2 (Err (AxiosError "timeout")); Tick 1000;
             Call 3 GetToken] world_cached = Some w' ∧
        settled w' =
          settled world_cached ++
          [(2, Err (AxiosError "timeout")); (3, Ok (TokenString "AT1"))] ∧
        posts w' = posts world_cached ∧
        this w' = this world_cached ∧
        api_requests w' =
          [(2, bearer_client cfg_password "AT1",
            request_config "/api/v1/me" [])].
Proof.
  apply (X13_transport_failure_keeps_cached_token world_cached 2 3
           "/api/v1/me" [] (AxiosError "timeout") 1000 token_AT1);
    [reflexivity|reflexivity|simpl; lia].
Defined.

(** ** One refresh for callers of all three methods *)

Lemma run_later_calls_of cs : ∀ w p,
  tokenPromise (this w) = Some p →
  run (later_calls_of cs) w =
  Some {| this := this w; Date_now := (Date_now w + elapsed_of cs)%Z;
          promises := promises w;
          suspended := suspended w ++ map (attached_frame_of p) cs.*2;
          posts := posts w; api_requests := api_requests w;
          api_waiting := api_waiting w; settled := settled w |}.
Proof.
  induction cs as [|[d [c o]] cs IH]; intros w p Hp; simpl.
  - rewrite Z.add_0_r, app_nil_r. by destruct w.
  - unfold getToken_call. simpl. rewrite Hp.
    erewrite IH by (simpl; exact Hp). simpl.
    rewrite <- app_assoc, Z.add_assoc. done.
Qed.

Lemma continue_values_requests c o out w :
  settled (continue c o out w) =
    settled w ++ values_of (config (this w)) out [(c, o)] ∧
  api_requests (continue c o out w) =
    api_requests w ++ requests_of (config (this w)) out [(c, o)].
Proof. destruct o, out; simpl; by rewrite ?app_nil_r. Qed.

Lemma values_of_cons cfg out co cs :
  values_of cfg out (co :: cs) =
  values_of cfg out [co] ++ values_of cfg out cs.
Proof. unfold values_of. simpl. by rewrite app_nil_r. Qed.

Lemma requests_of_cons cfg out co cs :
  requests_of cfg out (co :: cs) =
  requests_of cfg out [co] ++ requests_of cfg out cs.
Proof. unfold requests_of. simpl. by rewrite app_nil_r. Qed.

Lemma run_resume_attached_of cs : ∀ w p res,
  promises w !! p = Some (Settled res) →
  suspended w = map (attached_frame_of p) cs →
  ∃ w', run (replicate (length cs) Resume) w = Some w' ∧
        this w' = this w ∧ promises w' = promises w ∧ posts w' = posts w ∧
        suspended w' = [] ∧
        settled w' =
          settled w ++
          values_of (config (this w)) (Result_map Token.accessToken res) cs ∧
        api_requests w' =
          api_requests w ++
          requests_of (config (this w)) (Result_map Token.accessToken res) cs.
Proof.
  induction cs as [|[c o] cs IH]; intros w p res Hp Hs.
  - exists w. simpl. by rewrite !app_nil_r.
  - cbn [length replicate run step]. rewrite Hs.
    cbn [map next_frame]. unfold attached_frame_of at 1. cbn [awaits].
    rewrite Hp. unfold attached_frame_of at 1 2 3.
    cbn [role op caller fst snd getToken_resume].
    match goal with
    | |- context [continue c o ?out ?w0] =>
        destruct (IH (continue c o out w0) p res) as
          (w' & Hrun & H1 & H2 & H3 & H4 & H5 & H6);
        [by rewrite continue_promises|by rewrite continue_suspended|];
        destruct (continue_values_requests c o out w0) as [Hv Hr]
    end.
    exists w'. split; [exact Hrun|].
    rewrite continue_this in H1, H5, H6. rewrite continue_promises in H2.
    rewrite continue_posts in H3.
    cbn [this promises posts settled api_requests config] in *.
    rewrite (values_of_cons _ _ (c, o) cs), (requests_of_cons _ _ (c, o) cs).
    by rewrite H5, H6, Hv, Hr, <- !app_assoc.
Qed.

(** X14: a refresh is shared by concurrent callers of all three methods.
    On an idle client with no fresh token that can determine a grant, calls
    of [getToken], [getApiClient] and [request] made before the
    authorization endpoint answers lead to one post.  When it answers with
    a token, every caller of [getToken] receives that access token, every
    caller of [getApiClient] an instance for [https://oauth.reddit.com]
    with [Authorization: Bearer <token>] and the configured user agent, and
    the callers of [request] each issue their request through such an
    instance, in the order in which they called; when it fails, every
    caller receives that one error and no request is issued.  The calls
    that have finished are given as a collection: callers of different
    methods do not finish in the order in which they called. *)
Theorem X14_one_refresh_shared_by_all_methods (w : World) (first : nat * Op)
    (cs : list (N * (nat * Op))) (d : N) (r : Result TokenData)
    (post : AuthPost) :
  tokenPromise (this w) = None →
  suspended w = [] →
  fresh_token (token (this w)) (Date_now w) = None →
  requestToken_begin (config (this w)) (token (this w)) = Ok post →
  ∃ w',
    run (concurrent_calls_of (length (promises w)) first cs d r) w = Some w' ∧
    posts w' = posts w ++ [post] ∧
    tokenPromise (this w') = None ∧
    suspended w' = [] ∧
    settled w' ≡ₚ
      settled w ++
      values_of (config (this w)) (Result_map access_token r)
        (first :: cs.*2) ∧
    api_requests w' =
      api_requests w ++
      requests_of (config (this w)) (Result_map access_token r)
        (first :: cs.*2).
Proof.
  intros Htp Hs Hfresh Hbegin. destruct first as [c0 o0].
  unfold concurrent_calls_of. cbn [run step fst snd].
  unfold getToken_call. rewrite Htp, Hfresh, Hbegin, Hs.
  rewrite run_app.
  erewrite run_later_calls_of by (simpl; reflexivity).
  cbn [run step this Date_now promises suspended posts api_requests
       api_waiting settled config token tokenPromise app].
  rewrite lookup_snoc, insert_snoc.
  cbn [replicate run step this Date_now promises suspended posts api_requests
       api_waiting settled config token tokenPromise app next_frame awaits].
  rewrite lookup_snoc. cbn [role op caller].
  set (res := requestToken_end (config (this w)) (token (this w))
                (Date_now w + elapsed_of cs + Z.of_N d) r).
  assert (Result_map Token.accessToken res = Result_map access_token r)
    as Hout by (by destruct r).
  destruct (getToken_resume Initiator res
              {| config := config (this w); token := token (this w);
                 tokenPromise := Some (length (promises w)) |})
    as [cl out] eqn:Hres.
  assert (config cl = config (this w) ∧ tokenPromise cl = None ∧
          out = Result_map access_token r) as (Hcfg & Hnone & ->).
  { rewrite <- Hout. destruct res; simpl in Hres; by simplify_eq. }
  match goal with
  | |- context [continue c0 o0 ?out ?w0] =>
      destruct (run_resume_attached_of cs.*2 (continue c0 o0 out w0)
                  (length (promises w)) res) as
        (w' & Hrun & H1 & H2 & H3 & H4 & H5 & H6);
      [rewrite continue_promises; simpl; apply lookup_snoc
      |by rewrite continue_suspended|];
      destruct (continue_values_requests c0 o0 out w0) as [Hv Hr]
  end.
  rewrite length_fmap in Hrun. exists w'. split; [exact Hrun|].
  rewrite continue_this in H1, H5, H6. rewrite continue_posts in H3.
  cbn [this promises posts settled api_requests config] in *.
  rewrite Hcfg, Hout in *.
  rewrite (values_of_cons _ _ (c0, o0) cs.*2),
    (requests_of_cons _ _ (c0, o0) cs.*2).
  by rewrite H1, H3, H4, H5, H6, Hv, Hr, <- !app_assoc.
Qed.

Lemma X14_witness :
  ∃ w',
    run (concurrent_calls_of 0 (1, Request "/api/v1/me" [])
           [(3%N, (2, GetToken)); (4%N, (3, Request "/hot" [("url", "/new")]))]
           5 (Ok data_AT1)) (init cfg_password 0) = Some w' ∧
    posts w' =
      [{| post_url := "/api/v1/access_token";
          post_form := [("grant_type", "password"); ("username", "alice");
                        ("password", "hunter2")];
          post_basic := "id:secret" |}] ∧
    tokenPromise (this w') = None ∧
    suspended w' = [] ∧
    settled w' ≡ₚ [(2, Ok (TokenString "AT1"))] ∧
    api_requests w' =
      [(1,
        {| baseURL := "https://oauth.reddit.com";
           headers := [("Authorization", "Bearer AT1");
                       ("User-Agent", "MyRedditApp/1.0.0")] |},
        [("url", "/api/v1/me")]);
       (3,
        {| baseURL := "https://oauth.reddit.com";
           headers := [("Authorization", "Bearer AT1");
                       ("User-Agent", "MyRedditApp/1.0.0")] |},
        [("url", "/new")])].
Proof.
  apply (X14_one_refresh_shared_by_all_methods (init cfg_password 0)
           (1, Request "/api/v1/me" [])
           [(3%N, (2, GetToken)); (4%N, (3, Request "/hot" [("url", "/new")]))]
           5 (Ok data_AT1)); reflexivity.
Defined.
